(** * Mailbox Full Alert: the quota monitor of [src/background.js]

    A shallow embedding of the background script of the add-on: the usage
    aggregator ([sumFolderMessagesSize], [sumAccountBytes]), the quota
    monitor ([checkAllAccounts]), the badge presenter ([setBadge]) and the
    scheduler ([scheduleChecksFromSettings]), followed by the properties
    the specification states about them.  The older copy of the script at
    the top of the repository differs in the loop of the monitor; its loop
    body is in [Module Legacy].  The rest of the script (the usage
    snapshot, the listeners of the alarm, of startup and of the messages of
    the options page) and the helpers of [src/options.js] that compute
    follow, with the properties the code shows about them.

    Modelling conventions.
    - A JavaScript number is a value of [number]: a rational, or one of
      NaN, +Infinity, -Infinity.  The comparisons, [Math.floor],
      [Math.round], [Math.max], [Number.isFinite] and truthiness follow
      ECMAScript on these values, and are exact as they are on doubles.
      Division and multiplication round as IEEE-754 binary64 does: the
      exact quotient or product goes to the nearest double, a tie to the
      even significand ([round_double]); the scenarios at the end compare
      them with the doubles of the kernel.  Addition and subtraction are
      exact: the script adds message sizes, whole numbers whose sums stay
      below 2^53 in any mailbox, where doubles add exactly.  The sign of
      zero is outside the model.
    - [browser.storage.local] is split by the three kinds of key the
      script uses: the [perAccount] record, the global interval slot and
      the [MFA_lastNotifiedPct_<id>] keys (a map from the full key).
    - An [await]ed call that may throw returns an [option] or an
      [outcome]; [None] and [Thrown] are the exception.  The monitor takes
      [await sumAccountBytes(id)] by its result.
    - The message templates of [browser.i18n] and [formatBytes] are the
      host's; a notification is kept as the arguments [notify] hands to
      them. *)

From Stdlib Require Import QArith Qround Qminmax Lqa Qpower Qabs.
From Corelib Require PrimFloat FloatOps SpecFloat.
From stdpp Require Import gmap strings list fin_maps pretty.

Open Scope Z_scope.

(** ** JavaScript numbers *)

Inductive number : Type :=
  | NaN
  | PInf
  | NInf
  | Fin (q : Q).

Definition num (z : Z) : number := Fin (inject_Z z).

(** The order of two numbers; [None] when one of them is NaN, so that
    every comparison with NaN is false. *)
Definition num_compare (a b : number) : option comparison :=
  match a, b with
  | NaN, _ | _, NaN => None
  | PInf, PInf => Some Eq
  | PInf, _ => Some Gt
  | _, PInf => Some Lt
  | NInf, NInf => Some Eq
  | NInf, _ => Some Lt
  | _, NInf => Some Gt
  | Fin x, Fin y => Some (Qcompare x y)
  end.

(** [a < b] *)
Definition num_lt (a b : number) : bool :=
  match num_compare a b with Some Lt => true | _ => false end.

(** [a <= b] *)
Definition num_le (a b : number) : bool :=
  match num_compare a b with Some Lt | Some Eq => true | _ => false end.

(** [a > b] and [a >= b] *)
Definition num_gt (a b : number) : bool := num_lt b a.
Definition num_ge (a b : number) : bool := num_le b a.

(** [a === b] on numbers *)
Definition num_eq (a b : number) : bool :=
  match num_compare a b with Some Eq => true | _ => false end.

(** ToBoolean on a number: 0 and NaN are falsy. *)
Definition truthy (a : number) : bool :=
  match a with
  | NaN => false
  | Fin q => negb (Qeq_bool q 0)
  | _ => true
  end.

Definition Number_isFinite_num (a : number) : bool :=
  match a with Fin _ => true | _ => false end.

Definition Qsign_pos (q : Q) : bool := match Qcompare 0 q with Lt => true | _ => false end.
Definition Qsign_neg (q : Q) : bool := match Qcompare q 0 with Lt => true | _ => false end.

(** *** Rounding to a double

    A finite double is a rational [m * 2^e] with [|m| < 2^53] and
    [-1074 <= e]; the result of a division or a multiplication is the
    exact quotient or product rounded to the nearest double, a tie going
    to the even significand, and to an infinity from [2^1024] on
    (IEEE-754 binary64, round to nearest). *)

(** [2^e] *)
Definition pow2 (e : Z) : Q := Qpower 2 e.

(** The binade of a rational that is not zero: the [l] with
    [2^(l-1) <= |q| < 2^l]. *)
Definition mag (q : Q) : Z :=
  let l := Z.log2 (Z.abs (Qnum q)) - Z.log2 (Zpos (Qden q)) in
  if Qle_bool (pow2 l) (Qabs q) then l + 1 else l.

(** The nearest integer, a tie going to the even one. *)
Definition round_even (q : Q) : Z :=
  let f := Qfloor q in
  match Qcompare (q - inject_Z f) (1 # 2) with
  | Lt => f
  | Gt => f + 1
  | Eq => if Z.even f then f else f + 1
  end.


(** The exponent of the double nearest to [q]: 53 significant bits, and no
    exponent below that of the subnormal numbers. *)
Definition double_exponent (q : Q) : Z := Z.max (mag q - 53) (-1074).

(** [q] rounded to 53 significant bits, before the range check. *)
Definition double_value (q : Q) : Q :=
  let e := double_exponent q in
  (inject_Z (round_even (q / pow2 e)) * pow2 e)%Q.

(** The double nearest to [q]. *)
Definition round_double (q : Q) : number :=
  if Qeq_bool q 0 then Fin 0
  else
    let v := double_value q in
    if Qle_bool (pow2 1024) (Qabs v) then (if Qle_bool 0 q then PInf else NInf)
    else Fin v.


Arguments pow2 : simpl never.
Arguments mag : simpl never.
Arguments double_value : simpl never.
Arguments round_double : simpl never.

(** [a + b]: exact (see the conventions above). *)
Definition num_add (a b : number) : number :=
  match a, b with
  | NaN, _ | _, NaN => NaN
  | PInf, NInf | NInf, PInf => NaN
  | PInf, _ | _, PInf => PInf
  | NInf, _ | _, NInf => NInf
  | Fin x, Fin y => Fin (x + y)
  end.

(** An infinity scaled by a finite factor. *)
Definition inf_scaled (positive : bool) (q : Q) : number :=
  if Qsign_pos q then (if positive then PInf else NInf)
  else if Qsign_neg q then (if positive then NInf else PInf)
  else NaN.

(** [a * b] *)
Definition num_mul (a b : number) : number :=
  match a, b with
  | NaN, _ | _, NaN => NaN
  | PInf, PInf | NInf, NInf => PInf
  | PInf, NInf | NInf, PInf => NInf
  | PInf, Fin q | Fin q, PInf => inf_scaled true q
  | NInf, Fin q | Fin q, NInf => inf_scaled false q
  | Fin x, Fin y => round_double (x * y)
  end.

(** [a / b] *)
Definition num_div (a b : number) : number :=
  match a, b with
  | NaN, _ | _, NaN => NaN
  | (PInf | NInf), (PInf | NInf) => NaN
  | Fin _, (PInf | NInf) => Fin 0
  | PInf, Fin q => if Qsign_neg q then NInf else PInf
  | NInf, Fin q => if Qsign_neg q then PInf else NInf
  | Fin x, Fin y =>
      if Qeq_bool y 0 then
        (if Qsign_pos x then PInf else if Qsign_neg x then NInf else NaN)
      else round_double (x / y)
  end.

(** [Math.floor] *)
Definition Math_floor (a : number) : number :=
  match a with
  | Fin q => num (Qfloor q)
  | _ => a
  end.

(** [Math.round]: the nearest integer, a tie going up. *)
Definition Math_round (a : number) : number :=
  match a with
  | Fin q => num (Qfloor (q + (1 # 2)))
  | _ => a
  end.

(** [Math.max] of two numbers. *)
Definition Math_max (a b : number) : number :=
  match num_compare a b with
  | None => NaN
  | Some Lt => b
  | Some _ => a
  end.

(** ToString on a number.  Every number this program renders is the
    result of [Math.floor], hence an integer or an infinity, and an
    integer is shown in decimal (the exponent form ECMAScript switches to
    from 1e21 on is not modelled); the decimal expansion of other values
    is not modelled either and they are shown as a fraction. *)
Definition Number_toString (a : number) : string :=
  match a with
  | NaN => "NaN"
  | PInf => "Infinity"
  | NInf => "-Infinity"
  | Fin q =>
      if Qeq_bool (inject_Z (Qfloor q)) q then pretty (Qfloor q)
      else pretty (Qnum q) +:+ "/" +:+ pretty (Zpos (Qden q))
  end.


(** ** JavaScript values read back from the host *)

(** The values a message field or a storage slot can hold, as far as the
    script tells them apart ([typeof], [Number.isFinite]). *)
Inductive jsval : Type :=
  | JSundefined
  | JSnull
  | JSboolean (b : bool)
  | JSnumber (n : number)
  | JSstring (s : string).

(** [Number.isFinite(v)]: false for every value that is not a number. *)
Definition Number_isFinite (v : jsval) : bool :=
  match v with JSnumber n => Number_isFinite_num n | _ => false end.

(** [a || b] on strings: the empty string is falsy. *)
Definition str_or (a b : string) : string :=
  if decide (a = "") then b else a.

(** An awaited call either returns, throws, or (in a model of a loop that
    runs on fuel) has not finished when the fuel is spent. *)
Inductive outcome (A : Type) : Type :=
  | Returned (a : A)
  | Thrown
  | OutOfFuel.
Arguments Returned {A} a.
Arguments Thrown {A}.
Arguments OutOfFuel {A}.

(** ** Defaults and keys *)

Definition MFA_DEFAULT_CHECK_INTERVAL_MIN : number := num 360.
Definition MFA_DEFAULT_THRESHOLD_PCT : number := num 80.
Definition MFA_NOTIFY_STATE_KEY_PREFIX : string := "MFA_lastNotifiedPct_".
Definition MFA_NOTIFICATION_ID_PREFIX : string := "quota-".

(** ** Usage aggregator *)

Record message := { msg_size : jsval }.

(** One page of a message listing; [page_id] is the continuation token
    ([None] or the empty string on the last page). *)
Record page := { page_id : option string; page_messages : list message }.

(** The body of the inner [for] loop of [sumFolderMessagesSize]:
    [if (typeof msg.size === 'number') total += msg.size]. *)
Definition add_message_size (total : number) (msg : message) : number :=
  match msg_size msg with
  | JSnumber n => num_add total n
  | _ => total
  end.

Definition sum_page (total : number) (p : page) : number :=
  foldl add_message_size total (page_messages p).

Section Aggregator.
(** [browser.messages.continueList]; [None] when the call throws. *)
Variable continueList : string -> option page.

(** The [while (true)] loop, entered with [total] and the current page. *)
Fixpoint sum_pages (fuel : nat) (total : number) (p : page) : outcome number :=
  let total := sum_page total p in
  match page_id p with
  | None => Returned total
  | Some id =>
      if decide (id = "") then Returned total
      else match fuel with
           | O => OutOfFuel
           | S fuel =>
               match continueList id with
               | None => Thrown
               | Some next => sum_pages fuel total next
               end
           end
  end.

(** [sumFolderMessagesSize(folder)], given what [browser.messages.list]
    answered for the folder. *)
Definition sumFolderMessagesSize (fuel : nat) (first : option page) : outcome number :=
  match first with
  | None => Thrown
  | Some p => sum_pages fuel (num 0) p
  end.

(** A folder with what the host answers about it: [folder_list] is the
    answer of [browser.messages.list(folder)], [subFolders] the array on
    the folder object (empty when it has none) and [getSubFolders] the
    answer of [browser.folders.getSubFolders(folder)]; [None] is a call
    that throws. *)
#[warnings="-register-all"]
Inductive folder : Type :=
  Folder (folder_list : option page) (subFolders : list folder)
         (getSubFolders : option (list folder)).

(** [walk(folder)] inside [sumAccountBytes], threading [total]. *)
Fixpoint walk (fuel : nat) (f : folder) (total : number) {struct f} : outcome number :=
  match f with
  | Folder first subFolders fetched =>
      match sumFolderMessagesSize fuel first with
      | Returned n =>
          let total := num_add total n in
          let walk_children :=
            fix walk_children (children : list folder) (total : number) : outcome number :=
              match children with
              | [] => Returned total
              | child :: children =>
                  match walk fuel child total with
                  | Returned total => walk_children children total
                  | Thrown => Thrown
                  | OutOfFuel => OutOfFuel
                  end
              end in
          match subFolders with
          | _ :: _ => walk_children subFolders total
          | [] =>
              match fetched with
              | Some children => walk_children children total
              | None => Thrown
              end
          end
      | Thrown => Thrown
      | OutOfFuel => OutOfFuel
      end
  end.

(** [sumAccountBytes(accountId)], given what [browser.accounts.get]
    answered: [None] when it throws, [Some None] when there is no account
    or no root folder. *)
Definition sumAccountBytes_of (fuel : nat) (account : option (option folder))
  : outcome number :=
  match account with
  | None => Thrown
  | Some None => Returned (num 0)
  | Some (Some rootFolder) => walk fuel rootFolder (num 0)
  end.
End Aggregator.

(** ** Settings store *)

(** One entry of the [perAccount] record; a field is [None] when the
    stored object lacks it. *)
Record AccountConfig := {
  conf_active : option bool;
  conf_limitBytes : option number;
  conf_thresholdPct : option number;
}.

(** [perAccount[acc.id] || {}] *)
Definition conf_of (perAccount : gmap string AccountConfig) (id : string) : AccountConfig :=
  default {| conf_active := None; conf_limitBytes := None; conf_thresholdPct := None |}
          (perAccount !! id).

(** [conf.active !== false] *)
Definition active_of (conf : AccountConfig) : bool :=
  match conf_active conf with Some false => false | _ => true end.

(** [Number(conf.limitBytes || 0)] *)
Definition limit_of (conf : AccountConfig) : number :=
  match conf_limitBytes conf with
  | Some n => if truthy n then n else num 0
  | None => num 0
  end.

(** [Number.isFinite(conf.thresholdPct) ? conf.thresholdPct : MFA_DEFAULT_THRESHOLD_PCT] *)
Definition threshold_of (conf : AccountConfig) : number :=
  match conf_thresholdPct conf with
  | Some n => if Number_isFinite_num n then n else MFA_DEFAULT_THRESHOLD_PCT
  | None => MFA_DEFAULT_THRESHOLD_PCT
  end.

(** [!active || !limit || limit <= 0] *)
Definition not_monitored (conf : AccountConfig) : bool :=
  negb (active_of conf) || negb (truthy (limit_of conf)) || num_le (limit_of conf) (num 0).

Definition notify_state_key (id : string) : string := MFA_NOTIFY_STATE_KEY_PREFIX +:+ id.

(** [getGlobalIntervalMin]: the slot is [None] when the key was never
    written, and the read answers its default. *)
Definition getGlobalIntervalMin (slot : option jsval) : number :=
  let val := default (JSnumber MFA_DEFAULT_CHECK_INTERVAL_MIN) slot in
  match val with
  | JSnumber n => if Number_isFinite val then n else MFA_DEFAULT_CHECK_INTERVAL_MIN
  | _ => MFA_DEFAULT_CHECK_INTERVAL_MIN
  end.

(** ** Notifications and badge *)

Record account := { acc_id : string; acc_name : string }.

(** [acc.name || acc.id] *)
Definition display_name (acc : account) : string := str_or (acc_name acc) (acc_id acc).

Definition getNotificationId (accountId : string) : string :=
  MFA_NOTIFICATION_ID_PREFIX +:+ accountId.

(** What [notify] passes to the message templates. *)
Record notification := {
  n_account : string;
  n_used : number;
  n_limit : number;
  n_pctUsed : number;
  n_threshold : number;
}.

Record badge_state := {
  badge_text : string;
  badge_color : option string;
  badge_title : string;
}.

(** What the script can observe and change. *)
Record world := {
  lastNotifiedPct : gmap string number;          (* storage.local, NotifyState keys *)
  notifications : gmap string notification;      (* the notifications on display, by id *)
  created : list (string * notification);        (* every notifications.create, in order *)
  badge : badge_state;
  console : list string;                         (* console.error *)
}.

Definition set_lastNotifiedPct (key : string) (v : number) (w : world) : world :=
  {| lastNotifiedPct := <[key := v]> (lastNotifiedPct w);
     notifications := notifications w; created := created w;
     badge := badge w; console := console w |}.

Definition clearNotification (accountId : string) (w : world) : world :=
  {| lastNotifiedPct := lastNotifiedPct w;
     notifications := delete (getNotificationId accountId) (notifications w);
     created := created w; badge := badge w; console := console w |}.

Definition notify (acc : account) (used limit pctUsed threshold : number) (w : world) : world :=
  let n := {| n_account := display_name acc; n_used := used; n_limit := limit;
              n_pctUsed := pctUsed; n_threshold := threshold |} in
  {| lastNotifiedPct := lastNotifiedPct w;
     notifications := <[getNotificationId (acc_id acc) := n]> (notifications w);
     created := created w ++ [(getNotificationId (acc_id acc), n)];
     badge := badge w; console := console w |}.

Definition console_error (line : string) (w : world) : world :=
  {| lastNotifiedPct := lastNotifiedPct w; notifications := notifications w;
     created := created w; badge := badge w; console := console w ++ [line] |}.

Definition set_badge (b : badge_state) (w : world) : world :=
  {| lastNotifiedPct := lastNotifiedPct w; notifications := notifications w;
     created := created w; badge := b; console := console w |}.

Section Monitor.
(** [browser.i18n.getMessage('extShortName')]; empty when the message is missing. *)
Variable extShortName : string.

Definition default_title : string := str_or extShortName "MFA".

(** [setBadge(percent, accountName)] *)
Definition setBadge (percent : option number) (accountName : option string) (w : world) : world :=
  match percent with
  | Some p =>
      set_badge {| badge_text := Number_toString p +:+ "%";
                   badge_color := Some "#d93025"%string;
                   badge_title := str_or (default "" accountName) default_title |} w
  | None =>
      set_badge {| badge_text := ""; badge_color := badge_color (badge w);
                   badge_title := default_title |} w
  end.

(** The [perAccount] record read at the start of the pass. *)
Variable perAccount : gmap string AccountConfig.
(** [await sumAccountBytes(id)]: the bytes [sumAccountBytes_of] returns for
    the account, [None] when it throws. *)
Variable sumAccountBytes : string -> option number.
Variable forceNotify : bool.
Variable onlyAccountId : option string.

(** [onlyAccountId && acc.id !== onlyAccountId] *)
Definition out_of_scope (acc : account) : bool :=
  match onlyAccountId with
  | Some only => negb (bool_decide (only = "")) && negb (bool_decide (acc_id acc = only))
  | None => false
  end.

(** The loop variables [topBadgeAccountName] and [topBadgePercent]. *)
Record top := { topBadgeAccountName : option string; topBadgePercent : number }.

Definition pct_of (used limit : number) : number := num_mul (num_div used limit) (num 100).

(** [Math.round(pctUsed * 10) / 10] *)
Definition store_pct (pctUsed : number) : number :=
  num_div (Math_round (num_mul pctUsed (num 10))) (num 10).

(** The body of the [for] loop of [checkAllAccounts]. *)
Definition check_account (st : world * top) (acc : account) : world * top :=
  let '(w, t) := st in
  if out_of_scope acc then st
  else
    let conf := conf_of perAccount (acc_id acc) in
    let limit := limit_of conf in
    let threshold := threshold_of conf in
    let key := notify_state_key (acc_id acc) in
    if not_monitored conf then
      (set_lastNotifiedPct key (num 0) (clearNotification (acc_id acc) w), t)
    else
      match sumAccountBytes (acc_id acc) with
      | None => (console_error ("Summation failed for account " +:+ acc_id acc) w, t)
      | Some used =>
          let pctUsed := pct_of used limit in
          let lastPct := default (num 0) (lastNotifiedPct w !! key) in
          let crossedUp := num_ge pctUsed threshold && num_lt lastPct threshold in
          let w := if num_lt pctUsed threshold then clearNotification (acc_id acc) w else w in
          let t :=
            if num_ge pctUsed threshold then
              let floored := Math_floor pctUsed in
              if num_gt floored (topBadgePercent t) then
                {| topBadgeAccountName := Some (display_name acc);
                   topBadgePercent := floored |}
              else t
            else t in
          let w :=
            if crossedUp || (forceNotify && num_ge pctUsed threshold)
            then notify acc used limit pctUsed threshold w else w in
          (set_lastNotifiedPct key (store_pct pctUsed) w, t)
      end.

Definition top_init : top :=
  {| topBadgeAccountName := None; topBadgePercent := num (-1) |}.

(** [checkAllAccounts({ forceNotify, onlyAccountId })] over the accounts
    [browser.accounts.list()] returned. *)
Definition checkAllAccounts (accounts : list account) (w : world) : world :=
  let '(w, t) := foldl check_account (w, top_init) accounts in
  setBadge (if num_ge (topBadgePercent t) (num 0) then Some (topBadgePercent t) else None)
           (topBadgeAccountName t) w.
End Monitor.

(** ** The older copy of the script *)

(** The top-level [background.js] of the repository: the same script but
    for [notify], whose id carries [Date.now()], and the loop body, which
    only skips an account that is not monitored and never clears a
    notification. *)
Module Legacy.

(** [now] is [Date.now()] as the template literal renders it. *)
Definition notify (now : string) (acc : account) (used limit pctUsed threshold : number)
    (w : world) : world :=
  let id := "quota-" +:+ acc_id acc +:+ "-" +:+ now in
  let n := {| n_account := display_name acc; n_used := used; n_limit := limit;
              n_pctUsed := pctUsed; n_threshold := threshold |} in
  {| lastNotifiedPct := lastNotifiedPct w;
     notifications := <[id := n]> (notifications w);
     created := created w ++ [(id, n)];
     badge := badge w; console := console w |}.

Section LegacyMonitor.
Variable perAccount : gmap string AccountConfig.
Variable sumAccountBytes : string -> option number.
Variable forceNotify : bool.
Variable onlyAccountId : option string.
Variable now : string.

(** The body of the [for] loop of the older [checkAllAccounts]. *)
Definition check_account (st : world * top) (acc : account) : world * top :=
  let '(w, t) := st in
  if out_of_scope onlyAccountId acc then st
  else
    let conf := conf_of perAccount (acc_id acc) in
    let limit := limit_of conf in
    let threshold := threshold_of conf in
    if negb (active_of conf) then st
    else if negb (truthy limit) || num_le limit (num 0) then st
    else
      match sumAccountBytes (acc_id acc) with
      | None => (console_error ("Summation failed for account " +:+ acc_id acc) w, t)
      | Some used =>
          let pctUsed := pct_of used limit in
          let key := notify_state_key (acc_id acc) in
          let lastPct := default (num 0) (lastNotifiedPct w !! key) in
          let crossedUp := num_ge pctUsed threshold && num_lt lastPct threshold in
          let t :=
            if num_ge pctUsed threshold then
              let floored := Math_floor pctUsed in
              if num_gt floored (topBadgePercent t) then
                {| topBadgeAccountName := Some (display_name acc);
                   topBadgePercent := floored |}
              else t
            else t in
          let w :=
            if (forceNotify && num_ge pctUsed threshold) || crossedUp
            then notify now acc used limit pctUsed threshold w else w in
          (set_lastNotifiedPct key (store_pct pctUsed) w, t)
      end.
End LegacyMonitor.

End Legacy.

(** ** Scheduler *)

Definition ALARM_NAME : string := "quota-check".

(** [Math.max(0, Math.floor(Number(minutesRaw) || 0))] *)
Definition whole_minutes (minutesRaw : number) : number :=
  Math_max (num 0) (Math_floor (if truthy minutesRaw then minutesRaw else num 0)).

(** [scheduleChecksFromSettings]: the alarms of the add-on by name, each
    with its [periodInMinutes]. *)
Definition scheduleChecksFromSettings (slot : option jsval) (alarms : gmap string number)
  : gmap string number :=
  let minutesRaw := getGlobalIntervalMin slot in
  let alarms := delete ALARM_NAME alarms in
  let minutes := whole_minutes minutesRaw in
  if num_eq minutes (num 0) then alarms
  else <[ALARM_NAME := Math_max (num 1) minutes]> alarms.

Section Messaging.
(** The numeric value of a string (StringToNumber), left to the host. *)
Variable StringToNumber : string -> number.

(** [Number(v)] *)
Definition Number_of (v : jsval) : number :=
  match v with
  | JSundefined => NaN
  | JSnull => num 0
  | JSboolean b => if b then num 1 else num 0
  | JSnumber n => n
  | JSstring s => StringToNumber s
  end.

(** The handler of the [saveGlobalSettingsMinutes] message: the new value
    of the interval slot and the alarms after re-arming. *)
Definition saveGlobalSettingsMinutes (intervalMin : jsval) (alarms : gmap string number)
  : option jsval * gmap string number :=
  let minutes := whole_minutes (Number_of intervalMin) in
  let slot := Some (JSnumber minutes) in
  (slot, scheduleChecksFromSettings slot alarms).
End Messaging.


(** * The rest of the background script *)

(** ** The usage snapshot *)

(** One entry of the answer of [getAccountsUsageSnapshot]. *)
Record UsageSnapshot := {
  snap_id : string;
  snap_name : string;
  snap_active : bool;
  snap_limitBytes : number;
  snap_thresholdPct : number;
  snap_usedBytes : number;
  snap_pctUsed : number;
}.

(** One entry of the answer to [getAccountsState]. *)
Record AccountState := {
  state_id : string;
  state_name : string;
  state_active : bool;
  state_limitBytes : number;
  state_thresholdPct : number;
}.

Section Snapshot.
Variable perAccount : gmap string AccountConfig.
Variable sumAccountBytes : string -> option number.

(** The body of the [for] loop of [getAccountsUsageSnapshot]: [used] stays
    0 when the limit is not above zero (the account is not measured) and
    when the measurement throws. *)
Definition snapshot_of (acc : account) : UsageSnapshot :=
  let conf := conf_of perAccount (acc_id acc) in
  let active := active_of conf in
  let limit := limit_of conf in
  let threshold := threshold_of conf in
  let used :=
    if num_gt limit (num 0)
    then default (num 0) (sumAccountBytes (acc_id acc))
    else num 0 in
  let pctUsed := if num_gt limit (num 0) then pct_of used limit else num 0 in
  {| snap_id := acc_id acc; snap_name := display_name acc; snap_active := active;
     snap_limitBytes := limit; snap_thresholdPct := threshold;
     snap_usedBytes := used; snap_pctUsed := pctUsed |}.

(** Whether the measurement of the account is attempted and throws. *)
Definition snapshot_fails (acc : account) : bool :=
  num_gt (limit_of (conf_of perAccount (acc_id acc))) (num 0)
  && match sumAccountBytes (acc_id acc) with None => true | Some _ => false end.

(** [getAccountsUsageSnapshot()] over the accounts [browser.accounts.list()]
    returned: the list [out], and the world with the failures logged. *)
Definition getAccountsUsageSnapshot (accounts : list account) (w : world)
  : list UsageSnapshot * world :=
  foldl (fun '(out, w) acc =>
           (out ++ [snapshot_of acc],
            if snapshot_fails acc
            then console_error ("Summation failed for account " +:+ acc_id acc) w
            else w))
        ([], w) accounts.

(** The answer to the [getAccountsState] message. *)
Definition getAccountsState (accounts : list account) : list AccountState :=
  (fun a =>
     let conf := conf_of perAccount (acc_id a) in
     {| state_id := acc_id a; state_name := acc_name a;
        state_active := active_of conf;
        state_limitBytes := limit_of conf;
        state_thresholdPct := threshold_of conf |}) <$> accounts.
End Snapshot.

(** ** Lifecycle and messages *)

(** The state of the add-on between two events: the [perAccount] record
    and the interval slot of [browser.storage.local], the alarms, and the
    rest of what the script observes. *)
Record addon := {
  stored_perAccount : gmap string AccountConfig;
  stored_interval : option jsval;
  armed : gmap string number;
  seen : world;
}.

(** The messages of the options page, by their [type]; a field that the
    sender left out is [None] or [JSundefined]. *)
Inductive request : Type :=
  | MsgGetAccountsState
  | MsgGetAccountsUsage
  | MsgSaveAccountsConfig (payload : option (gmap string AccountConfig))
  | MsgRunCheckNow (force : jsval) (accountId : option string)
  | MsgGetGlobalSettings
  | MsgSaveGlobalSettingsMinutes (intervalMin : jsval)
  | MsgOther.

Inductive response : Type :=
  | RespAccountsState (rows : list AccountState)
  | RespAccountsUsage (rows : list UsageSnapshot)
  | RespOk
  | RespOkInterval (intervalMin : number)
  | RespGlobalSettings (intervalMin : number)
  | RespUndefined.

Section Background.
Variable extShortName : string.
(** [browser.accounts.list()] *)
Variable accounts : list account.
Variable sumAccountBytes : string -> option number.
Variable StringToNumber : string -> number.

(** [checkAllAccounts(options)] on the stored settings. *)
Definition run_check (forceNotify : bool) (onlyAccountId : option string) (s : addon) : addon :=
  {| stored_perAccount := stored_perAccount s; stored_interval := stored_interval s;
     armed := armed s;
     seen := checkAllAccounts extShortName (stored_perAccount s) sumAccountBytes
               forceNotify onlyAccountId accounts (seen s) |}.

(** [scheduleChecksFromSettings()] on the stored interval. *)
Definition rearm (s : addon) : addon :=
  {| stored_perAccount := stored_perAccount s; stored_interval := stored_interval s;
     armed := scheduleChecksFromSettings (stored_interval s) (armed s);
     seen := seen s |}.

(** The listeners of [onInstalled] and [onStartup], once the pass they
    start has ended. *)
Definition onStartup (s : addon) : addon := run_check false None (rearm s).

(** The listener of [browser.alarms.onAlarm]. *)
Definition onAlarm (name : string) (s : addon) : addon :=
  if decide (name = "quota-check") then run_check true None s else s.

(** [a || null] on an optional string. *)
Definition str_or_null (a : option string) : option string :=
  match a with
  | Some id => if decide (id = "") then None else Some id
  | None => None
  end.

(** The listener of [browser.runtime.onMessage]: the answer and the state
    after it. *)
Definition onMessage (msg : request) (s : addon) : response * addon :=
  match msg with
  | MsgGetAccountsState =>
      (RespAccountsState (getAccountsState (stored_perAccount s) accounts), s)
  | MsgGetAccountsUsage =>
      let '(snap, w) :=
        getAccountsUsageSnapshot (stored_perAccount s) sumAccountBytes accounts (seen s) in
      (RespAccountsUsage snap,
       {| stored_perAccount := stored_perAccount s; stored_interval := stored_interval s;
          armed := armed s; seen := w |})
  | MsgSaveAccountsConfig payload =>
      let nextPartial := default ∅ payload in
      let merged := nextPartial ∪ stored_perAccount s in
      (RespOk, {| stored_perAccount := merged; stored_interval := stored_interval s;
                  armed := armed s; seen := seen s |})
  | MsgRunCheckNow force accountId =>
      let forceNotify := match force with JSboolean true => true | _ => false end in
      (RespOk, run_check forceNotify (str_or_null accountId) s)
  | MsgGetGlobalSettings =>
      (RespGlobalSettings (getGlobalIntervalMin (stored_interval s)), s)
  | MsgSaveGlobalSettingsMinutes intervalMin =>
      let minutes := whole_minutes (Number_of StringToNumber intervalMin) in
      let '(slot, alarms) := saveGlobalSettingsMinutes StringToNumber intervalMin (armed s) in
      (RespOkInterval minutes,
       {| stored_perAccount := stored_perAccount s; stored_interval := slot;
          armed := alarms; seen := seen s |})
  | MsgOther => (RespUndefined, s)
  end.

(** What the Update button of the options page sends for the row of one
    account: the settings of the row, then a forced check of that account
    ([src/options.js], the click listener of the button). *)
Definition update_account (id : string) (c : AccountConfig) (s : addon) : addon :=
  let s := (onMessage (MsgSaveAccountsConfig (Some {[id := c]})) s).2 in
  (onMessage (MsgRunCheckNow (JSboolean true) (Some id)) s).2.
End Background.

(** * The options page *)

(** The helpers of [src/options.js] that compute: what a row of the
    accounts table is painted with, and the mapping between the interval
    selector and minutes.  The texts [humanSize] renders with [toFixed]
    are not modelled; a painted row carries the figures they are made
    from. *)

Definition MFA_DEFAULT_INTERVAL_MIN : number := num 360.

(** [a - b] *)
Definition num_sub (a b : number) : number :=
  match a, b with
  | NaN, _ | _, NaN => NaN
  | PInf, PInf | NInf, NInf => NaN
  | PInf, _ | _, NInf => PInf
  | NInf, _ | _, PInf => NInf
  | Fin x, Fin y => Fin (x - y)
  end.

(** [Number(a || b)] on numbers *)
Definition num_or (a b : number) : number := if truthy a then a else b.

(** [formatPct(n)] *)
Definition formatPct (n : number) : string := Number_toString (Math_round n) +:+ "%".

(** What [paintUsageColumns] leaves in the usage columns of a row: the
    percentage text, the bytes used and free that the detail is made of,
    and whether the name and the percentage are set in red. *)
Record usage_columns := {
  col_pct : string;
  col_used : number;
  col_free : number;
  col_alert : bool;
}.

(** [paintUsageColumns(rowEl, status)], [checked] being the state of the
    checkbox of the row; [None] is the empty state of the two columns. *)
Definition paintUsageColumns (checked : bool) (status : UsageSnapshot)
  : option usage_columns :=
  let active := checked in
  let limit := num_or (snap_limitBytes status) (num 0) in
  let used := num_or (snap_usedBytes status) (num 0) in
  let pct :=
    if num_gt limit (num 0) then num_or (snap_pctUsed status) (pct_of used limit)
    else num 0 in
  let thr := num_or (snap_thresholdPct status) MFA_DEFAULT_THRESHOLD_PCT in
  if negb active || negb (num_gt limit (num 0)) then None
  else
    let free := Math_max (num 0) (num_sub limit used) in
    Some {| col_pct := formatPct pct; col_used := used; col_free := free;
            col_alert := num_ge pct thr |}.

(** The names every object inherits from [Object.prototype]: looking one
    of them up in an object literal finds the inherited member, which is
    neither [null] nor [undefined]. *)
Definition Object_prototype_names : list string :=
  [ "constructor"; "hasOwnProperty"; "isPrototypeOf"; "propertyIsEnumerable";
    "toLocaleString"; "toString"; "valueOf"; "__proto__";
    "__defineGetter__"; "__defineSetter__"; "__lookupGetter__"; "__lookupSetter__" ]%string.

(** The [map] of [intervalSelectToMinutes]. *)
Definition interval_minutes : list (string * Z) :=
  [ ("off", 0); ("5m", 5); ("30m", 30); ("1h", 60); ("3h", 180); ("6h", 360);
    ("12h", 720); ("24h", 1440) ]%string.

(** The own property [key] of the object literal whose entries are [map]. *)
Fixpoint own_property {A : Type} (map : list (string * A)) (key : string) : option A :=
  match map with
  | [] => None
  | (k, v) :: map => if decide (k = key) then Some v else own_property map key
  end.

(** [intervalSelectToMinutes(val)]: [map[val] ?? MFA_DEFAULT_INTERVAL_MIN];
    [None] when [val] names an inherited member, which is what the
    function then returns instead of a number. *)
Definition intervalSelectToMinutes (val : string) : option number :=
  match own_property interval_minutes val with
  | Some m => Some (num m)
  | None =>
      if decide (val ∈ Object_prototype_names) then None
      else Some MFA_DEFAULT_INTERVAL_MIN
  end.

(** The [map] of [minutesToIntervalSelect], by its numeric keys. *)
Definition minutes_interval : list (Z * string) :=
  [ (5, "5m"); (30, "30m"); (60, "1h"); (180, "3h"); (360, "6h"); (720, "12h");
    (1440, "24h") ]%string.

(** [map[m]] for a number [m]: the entry whose key is the text of [m]. *)
Fixpoint numeric_property (map : list (Z * string)) (m : number) : option string :=
  match map with
  | [] => None
  | (k, v) :: map => if num_eq m (num k) then Some v else numeric_property map m
  end.

Section OptionsPage.
Variable StringToNumber : string -> number.

(** [minutesToIntervalSelect(mins)] *)
Definition minutesToIntervalSelect (mins : jsval) : string :=
  let m := whole_minutes (Number_of StringToNumber mins) in
  if num_eq m (num 0) then "off"
  else default "6h" (numeric_property minutes_interval m).
End OptionsPage.


(** * Properties *)

(** ** Numbers *)

(** *** Rounding *)

Lemma pow2_pos e : (0 < pow2 e)%Q.
Proof. by apply Qpower_0_lt. Qed.

Lemma pow2_add a b : (pow2 (a + b) == pow2 a * pow2 b)%Q.
Proof. by apply Qpower_plus. Qed.

Lemma pow2_le a b : a <= b -> (pow2 a <= pow2 b)%Q.
Proof. intros H. by apply Qpower_le_compat_l. Qed.

Lemma pow2_Z n : 0 <= n -> (pow2 n == inject_Z (2 ^ n))%Q.
Proof. intros H. unfold pow2. by rewrite Zpower_Qpower. Qed.

Lemma mag_spec q : (0 < q)%Q -> (pow2 (mag q - 1) <= q < pow2 (mag q))%Q.
Proof.
  intros Hq. destruct q as [n d]. 
  assert (0 < n) as Hn by (revert Hq; unfold Qlt; simpl; lia).
  pose proof (Z.log2_spec n Hn) as [Hn1 Hn2].
  pose proof (Z.log2_spec (Zpos d) eq_refl) as [Hd1 Hd2].
  pose proof (Z.log2_nonneg n) as Hln. pose proof (Z.log2_nonneg (Zpos d)) as Hld.
  set (ln := Z.log2 n) in *. set (ld := Z.log2 (Zpos d)) in *.
  assert (n # d == inject_Z n / inject_Z (Zpos d))%Q as Hq' by apply Qmake_Qdiv.
  assert (0 < inject_Z (Zpos d))%Q as Hdpos by done.
  assert (pow2 ln <= inject_Z n)%Q as A1 by (rewrite pow2_Z by done; by rewrite <- Zle_Qle).
  assert (inject_Z n < pow2 (ln + 1))%Q as A2
    by (rewrite pow2_Z by lia; by rewrite <- Zlt_Qlt).
  assert (pow2 ld <= inject_Z (Zpos d))%Q as B1
    by (rewrite pow2_Z by done; by rewrite <- Zle_Qle).
  assert (inject_Z (Zpos d) < pow2 (ld + 1))%Q as B2
    by (rewrite pow2_Z by lia; by rewrite <- Zlt_Qlt).
  assert (pow2 (ln - ld - 1) < n # d)%Q as Lo.
  { rewrite Hq'. apply Qlt_shift_div_l; [done|].
    eapply Qlt_le_trans; [|exact A1].
    assert (pow2 ln == pow2 (ln - ld - 1) * pow2 (ld + 1))%Q as ->
      by (rewrite <- pow2_add; f_equiv; lia).
    apply Qmult_lt_l; [apply pow2_pos | done]. }
  assert (n # d < pow2 (ln - ld + 1))%Q as Hi.
  { rewrite Hq'. apply Qlt_shift_div_r; [done|].
    eapply Qlt_le_trans; [exact A2|].
    assert (pow2 (ln + 1) == pow2 (ln - ld + 1) * pow2 ld)%Q as ->
      by (rewrite <- pow2_add; f_equiv; lia).
    apply Qmult_le_l; [apply pow2_pos | done]. }
  unfold mag. cbn [Qnum Qden]. rewrite (Z.abs_eq n) by lia. fold ln ld.
  rewrite (Qabs_pos (n # d)) by by apply Qlt_le_weak.
  destruct (Qle_bool (pow2 (ln - ld)) (n # d)) eqn:E.
  - apply Qle_bool_iff in E. replace (ln - ld + 1 - 1) with (ln - ld) by lia. by split.
  - assert (n # d < pow2 (ln - ld))%Q as E'.
    { apply Qnot_le_lt. intros H. apply Qle_bool_iff in H. congruence. }
    split; [by apply Qlt_le_weak | done].
Qed.

Lemma mag_mono x y : (0 < x)%Q -> (x <= y)%Q -> mag x <= mag y.
Proof.
  intros Hx Hxy. assert (0 < y)%Q as Hy by lra.
  destruct (mag_spec x Hx) as [X1 _]. destruct (mag_spec y Hy) as [_ Y2].
  destruct (Z_le_gt_dec (mag x) (mag y)) as [|Hgt]; [done|]. exfalso.
  assert (pow2 (mag y) <= pow2 (mag x - 1))%Q by (apply pow2_le; lia). lra.
Qed.

Lemma round_even_floor q : Qfloor q <= round_even q <= Qfloor q + 1.
Proof.
  unfold round_even. destruct (Qcompare _ _); [destruct (Z.even _)|..]; lia.
Qed.

Lemma round_even_Z z : round_even (inject_Z z) = z.
Proof.
  unfold round_even. rewrite Qfloor_Z.
  destruct (Qcompare_spec (inject_Z z - inject_Z z) (1 # 2)) as [H | H | H];
    [exfalso; lra | done | exfalso; lra].
Qed.

Lemma round_even_mono x y : (x <= y)%Q -> round_even x <= round_even y.
Proof.
  intros Hxy. pose proof (Qfloor_resp_le _ _ Hxy) as Hf.
  pose proof (round_even_floor x) as Hx. pose proof (round_even_floor y) as Hy.
  destruct (Z.eq_dec (Qfloor x) (Qfloor y)) as [E | NE]; [|lia].
  unfold round_even. rewrite E.
  destruct (Qcompare_spec (x - inject_Z (Qfloor y)) (1 # 2)) as [H1 | H1 | H1];
    destruct (Qcompare_spec (y - inject_Z (Qfloor y)) (1 # 2)) as [H2 | H2 | H2];
    try destruct (Z.even _); try lia; exfalso; lra.
Qed.

Lemma round_even_ge z q : (inject_Z z <= q)%Q -> z <= round_even q.
Proof. intros H. rewrite <- (round_even_Z z). by apply round_even_mono. Qed.

Lemma round_even_le z q : (q <= inject_Z z)%Q -> round_even q <= z.
Proof. intros H. rewrite <- (round_even_Z z). by apply round_even_mono. Qed.

(** The nearest integer is at most one half away. *)
Lemma round_even_near q :
  (q - (1 # 2) <= inject_Z (round_even q) <= q + (1 # 2))%Q.
Proof.
  pose proof (Qfloor_le q) as Hlo. pose proof (Qlt_floor q) as Hhi.
  rewrite inject_Z_plus in Hhi. change (inject_Z 1) with 1%Q in Hhi.
  unfold round_even.
  destruct (Qcompare_spec (q - inject_Z (Qfloor q)) (1 # 2)) as [H | H | H];
    try destruct (Z.even _); rewrite ?inject_Z_plus; change (inject_Z 1) with 1%Q; lra.
Qed.

(** The scaled value and its exponent. *)
Lemma scaled_back q e : (q / pow2 e * pow2 e == q)%Q.
Proof. pose proof (pow2_pos e). field. lra. Qed.

Lemma double_value_nonneg q : (0 <= q)%Q -> (0 <= double_value q)%Q.
Proof.
  intros Hq. unfold double_value. pose proof (pow2_pos (double_exponent q)) as He.
  apply Qmult_le_0_compat; [|lra].
  change 0%Q with (inject_Z 0). rewrite <- Zle_Qle. apply round_even_ge.
  change (inject_Z 0) with 0%Q. apply Qle_shift_div_l; [done | lra].
Qed.

Lemma double_value_nonpos q : (q <= 0)%Q -> (double_value q <= 0)%Q.
Proof.
  intros Hq. unfold double_value. pose proof (pow2_pos (double_exponent q)) as He.
  assert (inject_Z (round_even (q / pow2 (double_exponent q))) <= 0)%Q as Hm.
  { change 0%Q with (inject_Z 0). rewrite <- Zle_Qle. apply round_even_le.
    change (inject_Z 0) with 0%Q. apply Qle_shift_div_r; [done | lra]. }
  nra.
Qed.

(** Rounding stays in the binade of the number. *)
Lemma double_value_upper q :
  (0 < q)%Q -> (double_value q <= pow2 (Z.max (mag q) (double_exponent q)))%Q.
Proof.
  intros Hq. destruct (mag_spec q Hq) as [_ Hhi]. unfold double_value.
  set (e := double_exponent q). pose proof (pow2_pos e) as He.
  destruct (Z_le_gt_dec e (mag q)) as [Hle | Hgt].
  - rewrite Z.max_l by done.
    assert (pow2 (mag q) == pow2 (mag q - e) * pow2 e)%Q as ->
      by (rewrite <- pow2_add; f_equiv; lia).
    apply Qmult_le_compat_r; [|lra].
    rewrite (pow2_Z (mag q - e)) by lia. rewrite <- Zle_Qle. apply round_even_le.
    rewrite <- (pow2_Z (mag q - e)) by lia. apply Qle_shift_div_r; [done|].
    rewrite <- pow2_add. replace (mag q - e + e) with (mag q) by lia. lra.
  - rewrite Z.max_r by lia.
    assert (inject_Z (round_even (q / pow2 e)) <= 1)%Q as Hm.
    { change 1%Q with (inject_Z 1). rewrite <- Zle_Qle. apply round_even_le.
      change (inject_Z 1) with 1%Q. apply Qle_shift_div_r; [done|].
      assert (pow2 (mag q) <= pow2 e)%Q by (apply pow2_le; lia). lra. }
    nra.
Qed.

Lemma double_value_lower q :
  (0 < q)%Q -> -1074 <= mag q - 53 -> (pow2 (mag q - 1) <= double_value q)%Q.
Proof.
  intros Hq Hn. destruct (mag_spec q Hq) as [Hlo _]. unfold double_value, double_exponent.
  rewrite Z.max_l by done. set (e := mag q - 53). pose proof (pow2_pos e) as He.
  assert (pow2 (mag q - 1) == pow2 52 * pow2 e)%Q as E
    by (rewrite <- pow2_add; f_equiv; lia).
  rewrite E. apply Qmult_le_compat_r; [|lra].
  rewrite (pow2_Z 52) by lia. rewrite <- Zle_Qle. apply round_even_ge.
  rewrite <- (pow2_Z 52) by lia. apply Qle_shift_div_l; [done|]. by rewrite <- E.
Qed.

Lemma double_value_mono x y :
  (0 < x)%Q -> (x <= y)%Q -> (double_value x <= double_value y)%Q.
Proof.
  intros Hx Hxy. assert (0 < y)%Q as Hy by lra.
  pose proof (mag_mono x y Hx Hxy) as Hm.
  destruct (Z.eq_dec (double_exponent x) (double_exponent y)) as [E | NE].
  - unfold double_value. rewrite E. set (e := double_exponent y).
    pose proof (pow2_pos e) as He. apply Qmult_le_compat_r; [|lra].
    rewrite <- Zle_Qle. apply round_even_mono.
    apply Qmult_le_compat_r; [done|]. apply Qlt_le_weak, Qinv_lt_0_compat, He.
  - assert (double_exponent x < double_exponent y /\ -1074 <= mag y - 53 /\ mag x < mag y)
      as (He & Hn & Hlt) by (unfold double_exponent in *; lia).
    eapply Qle_trans; [apply (double_value_upper x Hx)|].
    eapply Qle_trans; [|apply (double_value_lower y Hy Hn)].
    apply pow2_le. unfold double_exponent in *. lia.
Qed.

(** The rounded value is at most half a unit in the last place away. *)
Lemma double_value_near q :
  (Qabs (double_value q - q) <= pow2 (double_exponent q - 1))%Q.
Proof.
  unfold double_value. set (e := double_exponent q). pose proof (pow2_pos e) as He.
  pose proof (round_even_near (q / pow2 e)) as [Hlo Hhi].
  pose proof (scaled_back q e) as Hq.
  assert (pow2 (e - 1) == pow2 e * (1 # 2))%Q as ->.
  { replace (e - 1) with (e + -1) by lia. by rewrite pow2_add. }
  set (m := inject_Z (round_even (q / pow2 e))) in *. set (s := (q / pow2 e)%Q) in *.
  clearbody m s. apply Qabs_Qle_condition. split; nra.
Qed.

Lemma mag_upper q L : (0 < q)%Q -> (q < pow2 L)%Q -> mag q <= L.
Proof.
  intros Hq HL. destruct (mag_spec q Hq) as [Hlo _].
  assert (pow2 (mag q - 1) < pow2 L)%Q as H by lra.
  apply Qpower_lt_compat_l_inv in H; [lia | done].
Qed.


(** *** Comparisons *)

Lemma Qcompare_cases (x y : Q) :
  ((x ?= y)%Q = Lt /\ (x < y)%Q) \/ ((x ?= y)%Q = Eq /\ (x == y)%Q) \/
  ((x ?= y)%Q = Gt /\ (y < x)%Q).
Proof.
  destruct (x ?= y)%Q eqn:E.
  - right; left; split; [done | by apply Qeq_alt].
  - left; split; [done | by apply Qlt_alt].
  - right; right; split; [done | by apply Qgt_alt].
Qed.

(** Case analysis on every rational comparison in sight. *)
Ltac qcases :=
  repeat match goal with
    | |- context [(?x ?= ?y)%Q] =>
        let H := fresh "Hc" in
        destruct (Qcompare_cases x y) as [[-> H] | [[-> H] | [-> H]]]
    | H : context [(?x ?= ?y)%Q] |- _ =>
        let H' := fresh "Hc" in
        destruct (Qcompare_cases x y) as [[E H'] | [[E H'] | [E H']]];
        rewrite E in H; clear E
    end.

Ltac num_unfold :=
  unfold num_ge, num_gt, num_le, num_lt, num_eq, Math_max, num_compare, num in *.

Ltac num_solve :=
  num_unfold; simpl in *; qcases; simpl in *; unfold inject_Z in *;
  try done; try lra; try (intros; exfalso; lra).

Definition is_NaN (a : number) : bool := match a with NaN => true | _ => false end.

Lemma num_lt_not_ge a b : num_lt a b = true -> num_ge a b = false.
Proof. destruct a, b; num_solve. Qed.

Lemma num_ge_not_NaN a b : num_ge a b = true -> is_NaN a = false /\ is_NaN b = false.
Proof. destruct a, b; num_solve. Qed.

Lemma num_le_refl a : is_NaN a = false -> num_le a a = true.
Proof. destruct a; num_solve. Qed.

Lemma num_le_trans a b c : num_le a b = true -> num_le b c = true -> num_le a c = true.
Proof. destruct a, b, c; num_solve. Qed.

Lemma num_lt_le_trans a b c : num_lt a b = true -> num_le b c = true -> num_lt a c = true.
Proof. destruct a, b, c; num_solve. Qed.

Lemma num_lt_le a b : num_lt a b = true -> num_le a b = true.
Proof. destruct a, b; num_solve. Qed.

Lemma num_not_gt_le a b :
  is_NaN a = false -> is_NaN b = false -> num_gt a b = false -> num_le a b = true.
Proof. destruct a, b; num_solve. Qed.

Lemma Math_floor_NaN a : is_NaN (Math_floor a) = is_NaN a.
Proof. by destruct a. Qed.

Lemma Math_floor_nonneg p :
  num_le (num 0) p = true -> num_lt (num (-1)) (Math_floor p) = true.
Proof.
  destruct p as [| | |q]; try done. intros H.
  assert (0 <= q)%Q as Hq by (revert H; num_solve).
  apply Qfloor_resp_le in Hq. change (Qfloor 0) with 0 in Hq.
  rewrite Zle_Qle in Hq. revert Hq. num_solve.
Qed.

(** The double nearest to a number that is not negative is not negative;
    it is never NaN. *)
Lemma round_double_cases q :
  (0 <= q)%Q -> round_double q = PInf \/ exists v, round_double q = Fin v /\ (0 <= v)%Q.
Proof.
  intros Hq. unfold round_double. destruct (Qeq_bool q 0).
  { right. by exists 0%Q. }
  destruct (Qle_bool (pow2 1024) _).
  - left. apply Qle_bool_iff in Hq. by rewrite Hq.
  - right. eexists. split; [done|]. by apply double_value_nonneg.
Qed.

Lemma round_double_zero q : (q == 0)%Q -> round_double q = Fin 0.
Proof. intros Hq. unfold round_double. apply Qeq_bool_iff in Hq. by rewrite Hq. Qed.

Lemma round_double_nonneg q : (0 <= q)%Q -> num_le (num 0) (round_double q) = true.
Proof.
  intros Hq. destruct (round_double_cases q Hq) as [-> | (v & -> & Hv)]; [done|].
  revert Hv. num_solve.
Qed.

(** Rounding keeps the order of numbers that are not negative. *)
Lemma round_double_mono x y :
  (0 <= x)%Q -> (x <= y)%Q -> num_le (round_double x) (round_double y) = true.
Proof.
  intros Hx Hxy. destruct (Qeq_bool x 0) eqn:Ex.
  { apply Qeq_bool_iff in Ex. rewrite (round_double_zero x Ex).
    apply round_double_nonneg. lra. }
  apply Qeq_bool_neq in Ex. assert (0 < x)%Q as Hx' by lra.
  assert (0 < y)%Q as Hy' by lra.
  pose proof (double_value_mono x y Hx' Hxy) as Hv.
  pose proof (double_value_nonneg x Hx) as Hvx.
  pose proof (double_value_nonneg y (Qlt_le_weak _ _ Hy')) as Hvy.
  unfold round_double.
  destruct (Qeq_bool x 0) eqn:Ex'; [apply Qeq_bool_iff in Ex'; lra|].
  destruct (Qeq_bool y 0) eqn:Ey'; [apply Qeq_bool_iff in Ey'; lra|].
  rewrite (proj2 (Qle_bool_iff 0 x) Hx), (proj2 (Qle_bool_iff 0 y) (Qlt_le_weak _ _ Hy')).
  rewrite !Qabs_pos by done.
  destruct (Qle_bool (pow2 1024) (double_value y)) eqn:Oy.
  - by destruct (Qle_bool (pow2 1024) (double_value x)).
  - destruct (Qle_bool (pow2 1024) (double_value x)) eqn:Ox.
    + apply Qle_bool_iff in Ox. exfalso.
      assert (pow2 1024 <= double_value y)%Q as H by lra.
      apply Qle_bool_iff in H. congruence.
    + revert Hv. generalize (double_value x) (double_value y). intros vx vy. num_solve.
Qed.

(** Below [2^L] the double nearest to a number that is not negative is
    finite and at most [2^(L-54)] away from it. *)
Lemma round_double_near L x :
  -1021 <= L <= 1023 -> (0 <= x)%Q -> (x < pow2 L)%Q ->
  exists v, round_double x = Fin v /\ (0 <= v)%Q /\ (Qabs (v - x) <= pow2 (L - 54))%Q.
Proof.
  intros HL Hx HxL. pose proof (pow2_pos (L - 54)) as Hp.
  destruct (Qeq_bool x 0) eqn:E.
  { apply Qeq_bool_iff in E. exists 0%Q. rewrite round_double_zero by done.
    split_and!; [done | lra |]. apply Qabs_Qle_condition. lra. }
  apply Qeq_bool_neq in E. assert (0 < x)%Q as Hx' by lra.
  pose proof (mag_upper x L Hx' HxL) as Hm.
  pose proof (double_value_near x) as Hn.
  pose proof (double_value_nonneg x Hx) as Hv.
  assert (pow2 (double_exponent x - 1) <= pow2 (L - 54))%Q as He
    by (apply pow2_le; unfold double_exponent; lia).
  assert (Qabs (double_value x - x) <= pow2 (L - 54))%Q as Hn' by lra.
  exists (double_value x). split_and!; [|done..].
  unfold round_double. destruct (Qeq_bool x 0) eqn:E'; [apply Qeq_bool_iff in E'; lra|].
  rewrite Qabs_pos by done.
  destruct (Qle_bool (pow2 1024) (double_value x)) eqn:O; [exfalso | done].
  apply Qle_bool_iff in O. apply Qabs_Qle_condition in Hn'.
  assert (pow2 (L - 54) <= pow2 L)%Q by (apply pow2_le; lia).
  assert (pow2 (L + 1) == pow2 L * 2)%Q as E2 by (by rewrite pow2_add).
  assert (pow2 (L + 1) <= pow2 1024)%Q by (apply pow2_le; lia).
  lra.
Qed.

(** The percentage of a usage that is not negative, against a limit above
    zero, is not negative (or is NaN, for an infinite usage against an
    infinite limit). *)
Lemma pct_of_nonneg used limit :
  num_le (num 0) used = true -> num_gt limit (num 0) = true ->
  is_NaN (pct_of used limit) = true \/ num_le (num 0) (pct_of used limit) = true.
Proof.
  unfold pct_of.
  destruct used as [| | |x], limit as [| | |y]; try done; intros Hx Hy; simpl; auto.
  - right. destruct (Qsign_neg y) eqn:E; [|done]. revert E Hy. unfold Qsign_neg. num_solve.
  - assert (0 <= x)%Q as Hx' by (revert Hx; num_solve).
    assert (0 < y)%Q as Hy' by (revert Hy; num_solve).
    destruct (Qeq_bool y 0) eqn:E; [apply Qeq_bool_iff in E; lra|].
    right.
    assert (0 <= x / y)%Q as H by (apply Qle_shift_div_l; [done | lra]).
    destruct (round_double_cases _ H) as [-> | (v & -> & Hv)]; [done|]. simpl.
    apply round_double_nonneg. change (inject_Z 100) with 100%Q. lra.
Qed.

Lemma Number_toString_num z : Number_toString (num z) = pretty z.
Proof.
  unfold Number_toString, num. rewrite Qfloor_Z.
  by rewrite (proj2 (Qeq_bool_iff _ _) (Qeq_refl _)).
Qed.

(** [Math.floor] of a finite number is shown as a decimal integer. *)
Lemma Number_toString_floor q : Number_toString (Math_floor (Fin q)) = pretty (Qfloor q).
Proof. apply Number_toString_num. Qed.

(** ** Keys and ids *)

Lemma notify_state_key_inj : Inj (=) (=) notify_state_key.
Proof. intros a b. apply String.app_inj. Qed.

Lemma getNotificationId_inj : Inj (=) (=) getNotificationId.
Proof. intros a b. apply String.app_inj. Qed.

(** ** The guard of the monitor *)

(** The account is monitored exactly when it is active and its limit is
    greater than zero; a missing, zero or NaN limit is caught by [!limit]. *)
Lemma not_monitored_false conf :
  not_monitored conf = false <->
  active_of conf = true /\ num_gt (limit_of conf) (num 0) = true.
Proof.
  unfold not_monitored. destruct (active_of conf); simpl; [| split; [done | by intros [? ?]]].
  destruct (limit_of conf) as [| | |q]; simpl; [split; [done | by intros [? ?]] .. |].
  destruct (Qeq_bool q 0) eqn:E; simpl.
  - apply Qeq_bool_iff in E. split; [done | intros [_ H]; revert H; num_solve].
  - apply Qeq_bool_neq in E. num_solve; split; try done; by intros [? ?].
Qed.

Lemma not_monitored_true conf :
  active_of conf = false \/ num_le (limit_of conf) (num 0) = true ->
  not_monitored conf = true.
Proof.
  unfold not_monitored. intros [-> | ->]; [done|]. by rewrite !orb_true_r.
Qed.

(** ** One step of the monitor loop *)

Arguments check_account : simpl never.

(** The notifications created between two states of the world. *)
Definition emitted (w w' : world) : list (string * notification) :=
  drop (length (created w)) (created w').

Lemma emitted_app w w' news : created w' = created w ++ news -> emitted w w' = news.
Proof. intros E. unfold emitted. by rewrite E, drop_app_length. Qed.

Section MonitorFacts.
Context (extShortName : string).
Context (perAccount : gmap string AccountConfig)
        (sumAccountBytes : string -> option number)
        (forceNotify : bool) (onlyAccountId : option string).

Local Abbreviation step := (check_account perAccount sumAccountBytes forceNotify onlyAccountId).
Local Abbreviation in_scope a := (out_of_scope onlyAccountId a = false).
Local Abbreviation conf a := (conf_of perAccount (acc_id a)).
Local Abbreviation limit a := (limit_of (conf a)).
Local Abbreviation threshold a := (threshold_of (conf a)).
Local Abbreviation key a := (notify_state_key (acc_id a)).
Local Abbreviation nid a := (getNotificationId (acc_id a)).
Local Abbreviation pass :=
  (checkAllAccounts extShortName perAccount sumAccountBytes forceNotify onlyAccountId).

(** The four ways through the loop body. *)
Lemma step_out_of_scope w t a :
  out_of_scope onlyAccountId a = true -> step (w, t) a = (w, t).
Proof. intros H. unfold check_account. by rewrite H. Qed.

Lemma step_not_monitored w t a :
  in_scope a -> not_monitored (conf a) = true ->
  step (w, t) a = (set_lastNotifiedPct (key a) (num 0) (clearNotification (acc_id a) w), t).
Proof. intros H1 H2. unfold check_account. by rewrite H1, H2. Qed.

Lemma step_failed w t a :
  in_scope a -> not_monitored (conf a) = false -> sumAccountBytes (acc_id a) = None ->
  step (w, t) a = (console_error ("Summation failed for account " +:+ acc_id a) w, t).
Proof. intros H1 H2 H3. unfold check_account. by rewrite H1, H2, H3. Qed.

(** What the step does to the loop variables of the badge. *)
Definition top_after (t : top) (a : account) (pctUsed : number) : top :=
  if num_ge pctUsed (threshold a) then
    if num_gt (Math_floor pctUsed) (topBadgePercent t) then
      {| topBadgeAccountName := Some (display_name a);
         topBadgePercent := Math_floor pctUsed |}
    else t
  else t.

(** Whether the step announces the account. *)
Definition announces (w : world) (a : account) (pctUsed : number) : bool :=
  let lastPct := default (num 0) (lastNotifiedPct w !! key a) in
  (num_ge pctUsed (threshold a) && num_lt lastPct (threshold a))
  || (forceNotify && num_ge pctUsed (threshold a)).

Lemma step_measured w t a used :
  in_scope a -> not_monitored (conf a) = false -> sumAccountBytes (acc_id a) = Some used ->
  let pctUsed := pct_of used (limit a) in
  let w1 := if num_lt pctUsed (threshold a) then clearNotification (acc_id a) w else w in
  let w2 := if announces w a pctUsed
            then notify a used (limit a) pctUsed (threshold a) w1 else w1 in
  step (w, t) a = (set_lastNotifiedPct (key a) (store_pct pctUsed) w2, top_after t a pctUsed).
Proof. intros H1 H2 H3. unfold check_account, announces, top_after. by rewrite H1, H2, H3. Qed.

(** Every step falls under one of the four. *)
Inductive step_case (a : account) : Type :=
  | case_out_of_scope : out_of_scope onlyAccountId a = true -> step_case a
  | case_not_monitored : in_scope a -> not_monitored (conf a) = true -> step_case a
  | case_failed : in_scope a -> not_monitored (conf a) = false ->
                  sumAccountBytes (acc_id a) = None -> step_case a
  | case_measured used : in_scope a -> not_monitored (conf a) = false ->
                  sumAccountBytes (acc_id a) = Some used -> step_case a.

Lemma step_cases a : step_case a.
Proof.
  destruct (out_of_scope onlyAccountId a) eqn:H1; [by apply case_out_of_scope|].
  destruct (not_monitored (conf a)) eqn:H2; [by apply case_not_monitored|].
  destruct (sumAccountBytes (acc_id a)) as [used|] eqn:H3;
    [by apply (case_measured a used) | by apply case_failed].
Defined.

(** The loop variables of the badge do not depend on the world. *)
Lemma step_top_world w w' t a : (step (w, t) a).2 = (step (w', t) a).2.
Proof.
  destruct (step_cases a) as [H1 | H1 H2 | H1 H2 H3 | used H1 H2 H3].
  - by rewrite !step_out_of_scope.
  - by rewrite !step_not_monitored.
  - by rewrite !step_failed.
  - by rewrite !(step_measured _ _ _ used).
Qed.

(** The badge is not touched inside the loop. *)
Lemma step_badge w t a : badge (step (w, t) a).1 = badge w.
Proof.
  destruct (step_cases a) as [H1 | H1 H2 | H1 H2 H3 | used H1 H2 H3].
  - by rewrite step_out_of_scope.
  - by rewrite step_not_monitored.
  - by rewrite step_failed.
  - rewrite (step_measured _ _ _ used) by done. simpl.
    repeat case_match; done.
Qed.

(** A step reads and writes the stored state and the notification of its
    own account only. *)
Lemma step_other_key w t a k :
  k <> key a -> lastNotifiedPct (step (w, t) a).1 !! k = lastNotifiedPct w !! k.
Proof.
  intros Hk.
  destruct (step_cases a) as [H1 | H1 H2 | H1 H2 H3 | used H1 H2 H3].
  - by rewrite step_out_of_scope.
  - rewrite step_not_monitored by done. simpl. by rewrite lookup_insert_ne.
  - by rewrite step_failed.
  - rewrite (step_measured _ _ _ used) by done. simpl.
    rewrite lookup_insert_ne by done. repeat case_match; done.
Qed.

Lemma step_other_notification w t a n :
  n <> nid a -> notifications (step (w, t) a).1 !! n = notifications w !! n.
Proof.
  intros Hn.
  destruct (step_cases a) as [H1 | H1 H2 | H1 H2 H3 | used H1 H2 H3].
  - by rewrite step_out_of_scope.
  - rewrite step_not_monitored by done. simpl. by rewrite lookup_delete_ne.
  - by rewrite step_failed.
  - rewrite (step_measured _ _ _ used) by done. simpl.
    repeat case_match; simpl; rewrite ?lookup_insert_ne, ?lookup_delete_ne; done.
Qed.

(** The notifications a step creates: none, or one under the id of its
    account when the account was measured and is announced. *)
Lemma step_created_quiet w t a :
  (out_of_scope onlyAccountId a = true \/ not_monitored (conf a) = true \/
   sumAccountBytes (acc_id a) = None) ->
  created (step (w, t) a).1 = created w.
Proof.
  intros H.
  destruct (step_cases a) as [H1 | H1 H2 | H1 H2 H3 | used H1 H2 H3].
  - by rewrite step_out_of_scope.
  - by rewrite step_not_monitored.
  - by rewrite step_failed.
  - destruct H as [H | [H | H]]; congruence.
Qed.

Lemma step_created_measured w t a used :
  in_scope a -> not_monitored (conf a) = false -> sumAccountBytes (acc_id a) = Some used ->
  let pctUsed := pct_of used (limit a) in
  created (step (w, t) a).1 =
    created w ++
    (if announces w a pctUsed
     then [(nid a, {| n_account := display_name a; n_used := used; n_limit := limit a;
                      n_pctUsed := pctUsed; n_threshold := threshold a |})]
     else []).
Proof.
  intros H1 H2 H3. rewrite (step_measured _ _ _ used) by done. simpl.
  destruct (announces _ _ _); simpl; repeat case_match; simpl; by rewrite ?app_nil_r.
Qed.

(** A created notification comes from an account that was measured. *)
Definition created_for (l : list account) (e : string * notification) : Prop :=
  exists b, b ∈ l /\ e.1 = nid b /\ out_of_scope onlyAccountId b = false /\
            not_monitored (conf b) = false /\ is_Some (sumAccountBytes (acc_id b)).

Lemma step_created w t a :
  exists news, created (step (w, t) a).1 = created w ++ news /\
               Forall (fun e => e.1 = nid a) news /\ Forall (created_for [a]) news.
Proof.
  destruct (step_cases a) as [H1 | H1 H2 | H1 H2 H3 | used H1 H2 H3].
  1-3: exists []; rewrite step_created_quiet, app_nil_r by auto; by split.
  rewrite (step_created_measured _ _ _ used) by done.
  eexists; split; [done|]. case_match; split; repeat constructor.
  exists a. rewrite H3. split_and!; try done. apply list_elem_of_here.
Qed.

(** ** The whole loop *)

Lemma loop_badge l w t : badge (foldl step (w, t) l).1 = badge w.
Proof.
  revert w t. induction l as [|a l IH]; intros w t; [done|]. simpl.
  destruct (step (w, t) a) as [w' t'] eqn:E. rewrite IH.
  by rewrite <- (step_badge w t a), E.
Qed.

Lemma loop_top_world l w w' t : (foldl step (w, t) l).2 = (foldl step (w', t) l).2.
Proof.
  revert w w' t. induction l as [|a l IH]; intros w w' t; [done|]. simpl.
  pose proof (step_top_world w w' t a) as Ht.
  destruct (step (w, t) a) as [w1 t1], (step (w', t) a) as [w1' t1'].
  simpl in Ht. subst t1'. apply IH.
Qed.

Lemma loop_other_key l w t k :
  (forall b, b ∈ l -> k <> key b) ->
  lastNotifiedPct (foldl step (w, t) l).1 !! k = lastNotifiedPct w !! k.
Proof.
  revert w t. induction l as [|a l IH]; intros w t Hk; [done|]. simpl.
  destruct (step (w, t) a) as [w' t'] eqn:E.
  rewrite IH by (intros b Hb; apply Hk; set_solver).
  rewrite <- (step_other_key w t a k) by (apply Hk; set_solver). by rewrite E.
Qed.

Lemma loop_other_notification l w t n :
  (forall b, b ∈ l -> n <> nid b) ->
  notifications (foldl step (w, t) l).1 !! n = notifications w !! n.
Proof.
  revert w t. induction l as [|a l IH]; intros w t Hn; [done|]. simpl.
  destruct (step (w, t) a) as [w' t'] eqn:E.
  rewrite IH by (intros b Hb; apply Hn; set_solver).
  rewrite <- (step_other_notification w t a n) by (apply Hn; set_solver). by rewrite E.
Qed.

Lemma created_for_mono l l' e : l ⊆ l' -> created_for l e -> created_for l' e.
Proof. intros Hl (b & Hb & H). exists b. split; [by apply Hl | done]. Qed.

Lemma loop_created l w t :
  exists news, created (foldl step (w, t) l).1 = created w ++ news /\
               Forall (created_for l) news.
Proof.
  revert w t. induction l as [|a l IH]; intros w t.
  { exists []. by rewrite app_nil_r. }
  cbn [foldl]. destruct (step_created w t a) as (n1 & Hn1 & _ & Hf1).
  destruct (step (w, t) a) as [w' t'] eqn:E.
  destruct (IH w' t') as (n2 & -> & Hn2). simpl in Hn1.
  exists (n1 ++ n2). rewrite Hn1, <- app_assoc. split; [done|].
  apply Forall_app. split.
  - eapply Forall_impl; [done|]. intros e. apply created_for_mono.
    intros x ->%list_elem_of_singleton. apply list_elem_of_here.
  - eapply Forall_impl; [done|]. intros e. apply created_for_mono.
    intros x Hx. by apply list_elem_of_further.
Qed.

(** No notification is created under the id of an account that none of
    the steps measured. *)
Lemma created_for_not l (news : list (string * notification)) a :
  Forall (created_for l) news ->
  (forall b, b ∈ l -> acc_id b = acc_id a -> out_of_scope onlyAccountId b = false ->
             not_monitored (conf b) = false ->
             is_Some (sumAccountBytes (acc_id b)) -> False) ->
  nid a ∉ news.*1.
Proof.
  intros Hn Hl Hin. apply list_elem_of_fmap in Hin as (e & He & Hin).
  rewrite Forall_forall in Hn. destruct (Hn e Hin) as (b & Hb & Heb & Hs & Hm & Hu).
  apply (Hl b Hb); try done. apply getNotificationId_inj. congruence.
Qed.

(** [setBadge] at the end of the pass changes the badge only. *)
Lemma pass_lastNotifiedPct l w :
  lastNotifiedPct (pass l w) = lastNotifiedPct (foldl step (w, top_init) l).1.
Proof.
  unfold checkAllAccounts. destruct (foldl _ _ _) as [w' t'].
  unfold setBadge. by case_match.
Qed.

Lemma pass_notifications l w :
  notifications (pass l w) = notifications (foldl step (w, top_init) l).1.
Proof.
  unfold checkAllAccounts. destruct (foldl _ _ _) as [w' t'].
  unfold setBadge. by case_match.
Qed.

Lemma pass_created l w : created (pass l w) = created (foldl step (w, top_init) l).1.
Proof.
  unfold checkAllAccounts. destruct (foldl _ _ _) as [w' t'].
  unfold setBadge. by case_match.
Qed.

Lemma pass_console l w : console (pass l w) = console (foldl step (w, top_init) l).1.
Proof.
  unfold checkAllAccounts. destruct (foldl _ _ _) as [w' t'].
  unfold setBadge. by case_match.
Qed.

(** Accounts with distinct ids have distinct keys and notification ids. *)
Lemma NoDup_ids_split l1 a l2 :
  NoDup (acc_id <$> (l1 ++ a :: l2)) ->
  forall b, b ∈ l1 ++ l2 -> acc_id b <> acc_id a.
Proof.
  rewrite fmap_app, fmap_cons. intros Hnd b Hb Heq.
  apply NoDup_app in Hnd as (_ & H1 & H2). apply NoDup_cons in H2 as [H2 _].
  apply elem_of_app in Hb as [Hb | Hb].
  - apply (H1 (acc_id a)); [rewrite <- Heq; by apply list_elem_of_fmap_2 | set_solver].
  - apply H2. rewrite <- Heq. by apply list_elem_of_fmap_2.
Qed.

(** ** C1: the rising-edge law *)

(** C1.  In a pass over accounts with distinct ids, an account in scope
    that is active, has a limit above zero and whose usage was measured is
    announced (a notification under its id is created during the pass) if
    and only if its percentage is at or above its threshold and the
    percentage stored before the pass is below it, or the pass is forced
    and its percentage is at or above the threshold.  In particular an
    account whose percentage is below its threshold is never announced. *)
Theorem rising_edge_law (accounts : list account) (w : world) (a : account) (used : number) :
  NoDup (acc_id <$> accounts) -> a ∈ accounts -> in_scope a ->
  active_of (conf a) = true -> num_gt (limit a) (num 0) = true ->
  sumAccountBytes (acc_id a) = Some used ->
  let pctUsed := pct_of used (limit a) in
  let lastPct := default (num 0) (lastNotifiedPct w !! key a) in
  let news := emitted w (checkAllAccounts extShortName perAccount sumAccountBytes
                           forceNotify onlyAccountId accounts w) in
  (nid a ∈ news.*1 <->
     (num_ge pctUsed (threshold a) = true /\ num_lt lastPct (threshold a) = true) \/
     (forceNotify = true /\ num_ge pctUsed (threshold a) = true)) /\
  (num_lt pctUsed (threshold a) = true -> nid a ∉ news.*1).
Proof.
  intros Hnd Ha Hscope Hact Hlim Hused pctUsed lastPct news.
  assert (not_monitored (conf a) = false) as Hmon by by apply not_monitored_false.
  apply list_elem_of_split in Ha as (l1 & l2 & ->).
  pose proof (NoDup_ids_split _ _ _ Hnd) as Hids.
  assert (nid a ∈ news.*1 <-> announces w a pctUsed = true) as Hiff.
  { pose proof (pass_created (l1 ++ a :: l2) w) as Hc.
    rewrite foldl_app in Hc. cbn [foldl] in Hc.
    destruct (foldl step (w, top_init) l1) as [w1 t1] eqn:E1.
    destruct (step (w1, t1) a) as [w2 t2] eqn:E2.
    destruct (loop_created l1 w top_init) as (n1 & Hc1 & Hn1). rewrite E1 in Hc1.
    destruct (loop_created l2 w2 t2) as (n3 & Hc3 & Hn3).
    pose proof (step_created_measured w1 t1 a used Hscope Hmon Hused) as Hc2.
    rewrite E2 in Hc2. simpl in Hc1, Hc2.
    assert (lastNotifiedPct w1 !! key a = lastNotifiedPct w !! key a) as Hlast.
    { change w1 with (w1, t1).1. rewrite <- E1. apply loop_other_key.
      intros b Hb Hk. apply notify_state_key_inj in Hk.
      apply (Hids b); [set_solver | done]. }
    assert (announces w1 a pctUsed = announces w a pctUsed) as Hann
      by (unfold announces; by rewrite Hlast).
    fold pctUsed in Hc2. rewrite Hann in Hc2.
    rewrite Hc3, Hc2, Hc1, <- !app_assoc in Hc.
    subst news. rewrite (emitted_app _ _ _ Hc), !fmap_app, !elem_of_app.
    split.
    - intros [H | [H | H]].
      + exfalso. eapply created_for_not; [exact Hn1 | | exact H].
        intros b Hb Hid. exfalso. apply (Hids b); [apply elem_of_app; auto | done].
      + destruct (announces _ _ _); [done | by apply elem_of_nil in H].
      + exfalso. eapply created_for_not; [exact Hn3 | | exact H].
        intros b Hb Hid. exfalso. apply (Hids b); [apply elem_of_app; auto | done].
    - intros ->. right; left. apply list_elem_of_here. }
  split.
  - rewrite Hiff. unfold announces. fold lastPct.
    rewrite orb_true_iff, !andb_true_iff. done.
  - intros Hlt. rewrite Hiff. unfold announces.
    apply num_lt_not_ge in Hlt. rewrite Hlt. by rewrite andb_false_r.
Qed.

(** ** C8: the stored state *)

(** The stored state of the account is the rounded percentage of its
    measured usage, if it is in scope, monitored and measured. *)
Definition settled (w : world) (a : account) : Prop :=
  in_scope a -> not_monitored (conf a) = false ->
  forall used, sumAccountBytes (acc_id a) = Some used ->
  lastNotifiedPct w !! key a = Some (store_pct (pct_of used (limit a))).

Lemma step_settles w t b a : acc_id a = acc_id b -> settled (step (w, t) b).1 a.
Proof.
  intros Hid Hs Hm used Hu. assert (in_scope b) as Hsb.
  { revert Hs. unfold out_of_scope. by rewrite Hid. }
  rewrite Hid in Hm, Hu |- *.
  rewrite (step_measured _ _ _ used) by done. simpl. by rewrite lookup_insert_eq.
Qed.

Lemma step_settled w t b a : settled w a -> settled (step (w, t) b).1 a.
Proof.
  intros Hw. destruct (decide (acc_id a = acc_id b)) as [Hid | Hid].
  - by apply step_settles.
  - intros Hs Hm used Hu. rewrite step_other_key; [by apply Hw|].
    intros Hk. by apply notify_state_key_inj in Hk.
Qed.

Lemma loop_settled l w t a : settled w a -> settled (foldl step (w, t) l).1 a.
Proof.
  revert w t. induction l as [|b l IH]; intros w t Hw; [done|]. cbn [foldl].
  pose proof (step_settled w t b a Hw) as Hw'.
  destruct (step (w, t) b) as [w' t']. by apply IH.
Qed.

Lemma loop_settles l w t a : a ∈ l -> settled (foldl step (w, t) l).1 a.
Proof.
  intros (l1 & l2 & ->)%list_elem_of_split. rewrite foldl_app. cbn [foldl].
  destruct (foldl step (w, t) l1) as [w1 t1].
  pose proof (step_settles w1 t1 a a eq_refl) as Hw'.
  destruct (step (w1, t1) a) as [w' t']. by apply loop_settled.
Qed.





(** ** C3: a second pass does not announce again *)

(** The number is a percentage between 0 and 100 with at most one decimal
    place: the double nearest to [k / 10] for a whole [k] from 0 to 1000.
    The thresholds the settings page offers (50, 60, 70, 80, 90, 95) and
    the default are. *)
Definition in_tenths (n : number) : Prop :=
  exists k : Z, 0 <= k <= 1000 /\ num_eq n (num_div (num k) (num 10)) = true.

(** Rounding to one decimal does not take a percentage below such a
    threshold. *)
Lemma store_pct_keeps_threshold p thr :
  in_tenths thr -> num_ge p thr = true -> num_lt (store_pct p) thr = false.
Proof.
  intros (k & [Hk0 Hk1] & Hthr) Hge.
  assert (pow2 7 == 128)%Q as P7 by reflexivity.
  assert (pow2 (7 - 54) == 1 # 140737488355328)%Q as P47 by reflexivity.
  assert (pow2 24 == 16777216)%Q as P24 by reflexivity.
  assert (pow2 (24 - 54) == 1 # 1073741824)%Q as P30 by reflexivity.
  assert (0 <= inject_Z k <= 1000)%Q as Hk.
  { change 0%Q with (inject_Z 0). change 1000%Q with (inject_Z 1000).
    rewrite <- !Zle_Qle. lia. }
  assert (inject_Z k / 10 == inject_Z k * (1 # 10))%Q as Ek by field.
  change (num_div (num k) (num 10)) with (round_double (inject_Z k / 10)) in Hthr.
  destruct (round_double_near 7 (inject_Z k / 10)) as (t' & Et & Ht0 & Hterr);
    [lia | rewrite Ek; lra | rewrite Ek; lra |].
  rewrite P47, Ek in Hterr. apply Qabs_Qle_condition in Hterr.
  rewrite Et in Hthr. destruct thr as [| | |t]; try done.
  assert (t == t')%Q as Ht by (revert Hthr; num_solve).
  destruct p as [| | |q]; try done. 
  assert (t <= q)%Q as Htq by (revert Hge; num_solve).
  unfold store_pct, num. cbn [num_mul]. change (inject_Z 10) with 10%Q.
  pose proof (round_double_mono (t * 10) (q * 10)) as Hmono.
  destruct (round_double_near 24 (t * 10)) as (v0 & Ev0 & _ & Hv0); [lia | lra | lra |].
  rewrite P30 in Hv0. apply Qabs_Qle_condition in Hv0. rewrite Ev0 in Hmono.
  destruct (round_double (q * 10)) as [| | |v] eqn:Ev;
    [by discriminate Hmono; [lra..] | done | by discriminate Hmono; [lra..] |].
  assert (v0 <= v)%Q as Hv by (revert Hmono; num_solve).
  cbn [Math_round]. unfold num. cbn [num_div]. change (inject_Z 10) with 10%Q.
  change (Qeq_bool 10 0) with false. cbn iota.
  assert (k <= Qfloor (v + (1 # 2))) as Hfl.
  { rewrite <- (Qfloor_Z k). apply Qfloor_resp_le. lra. }
  rewrite Zle_Qle in Hfl. set (k' := inject_Z (Qfloor (v + (1 # 2)))) in *. clearbody k'.
  assert (k' / 10 == k' * (1 # 10))%Q as Ek' by field.
  pose proof (round_double_mono (inject_Z k / 10) (k' / 10)) as Hmono'.
  rewrite Et in Hmono'.
  destruct (round_double (k' / 10)) as [| | |r];
    [by discriminate Hmono'; [rewrite ?Ek, ?Ek'; lra..] | done
    | by discriminate Hmono'; [rewrite ?Ek, ?Ek'; lra..] |].
  assert (t' <= r)%Q as Hr by (revert Hmono'; rewrite Ek, Ek'; num_solve).
  revert Hr Ht. num_solve.
Qed.

(** A step on a settled account creates nothing in a pass that is not
    forced. *)
Lemma step_silent w t a :
  forceNotify = false -> in_tenths (threshold a) -> settled w a ->
  created (step (w, t) a).1 = created w.
Proof.
  intros Hf Ht Hw.
  destruct (step_cases a) as [H1 | H1 H2 | H1 H2 H3 | used H1 H2 H3];
    [apply step_created_quiet; auto .. |].
  rewrite (step_created_measured _ _ _ used) by done.
  unfold announces. rewrite (Hw H1 H2 used H3), Hf. simpl.
  destruct (num_ge _ _) eqn:Hge; simpl; [|by rewrite app_nil_r].
  by rewrite (store_pct_keeps_threshold _ _ Ht Hge), app_nil_r.
Qed.

Lemma loop_silent l w t :
  forceNotify = false -> (forall a, a ∈ l -> in_tenths (threshold a)) ->
  (forall a, a ∈ l -> settled w a) ->
  created (foldl step (w, t) l).1 = created w.
Proof.
  intros Hf. revert w t. induction l as [|b l IH]; intros w t Ht Hw; [done|]. cbn [foldl].
  pose proof (step_silent w t b Hf (Ht b (list_elem_of_here _ _))
                (Hw b (list_elem_of_here _ _))) as Hb.
  assert (forall a, a ∈ l -> settled (step (w, t) b).1 a) as Hw'.
  { intros a Ha. apply step_settled, Hw. by apply list_elem_of_further. }
  destruct (step (w, t) b) as [w' t']. simpl in *. rewrite <- Hb.
  apply IH; [|done]. intros a Ha. apply Ht. by apply list_elem_of_further.
Qed.

(** The notifications of one id among those created. *)
Definition announced (id : string) (news : list (string * notification))
  : list (string * notification) :=
  filter (fun e => e.1 = getNotificationId id) news.

Lemma announced_other id id' news :
  id' <> id -> Forall (fun e => e.1 = getNotificationId id') news -> announced id news = [].
Proof.
  intros Hid. unfold announced. induction 1 as [|e news He _ IH]; [done|].
  rewrite filter_cons_False; [done|]. rewrite He. intros Heq.
  by apply getNotificationId_inj in Heq.
Qed.

(** In a pass that is not forced an account is announced at most once,
    and not at all when it was settled before. *)
Lemma loop_announces_once l w t id :
  forceNotify = false -> (forall a, a ∈ l -> in_tenths (threshold a)) ->
  (length (announced id (emitted w (foldl step (w, t) l).1)) <= 1)%nat /\
  ((forall a, a ∈ l -> acc_id a = id -> settled w a) ->
   announced id (emitted w (foldl step (w, t) l).1) = []).
Proof.
  intros Hf. revert w t. induction l as [|b l IH]; intros w t Ht.
  { unfold emitted. simpl. rewrite drop_all. split; [simpl; lia | done]. }
  cbn [foldl].
  destruct (step_created w t b) as (n1 & Hc1 & Hn1 & _).
  assert (forall a, a ∈ l -> in_tenths (threshold a)) as Ht'
    by (intros a Ha; apply Ht; by apply list_elem_of_further).
  pose proof (fun a => step_settled w t b a) as Hkeep.
  pose proof (fun a => step_settles w t b a) as Hset.
  pose proof (step_silent w t b Hf (Ht b (list_elem_of_here _ _))) as Hsil.
  assert (length n1 <= 1)%nat as Hlen.
  { destruct (step_cases b) as [H1 | H1 H2 | H1 H2 H3 | used H1 H2 H3].
    1-3: rewrite step_created_quiet in Hc1 by auto;
      apply (f_equal length) in Hc1; rewrite length_app in Hc1; lia.
    rewrite (step_created_measured _ _ _ used) in Hc1 by done.
    apply app_inv_head in Hc1. subst n1. case_match; simpl; lia. }
  destruct (step (w, t) b) as [w' t']. simpl in *.
  destruct (IH w' t' Ht') as [IH1 IH2].
  destruct (loop_created l w' t') as (n2 & Hc2 & _).
  assert (emitted w (foldl step (w', t') l).1 = n1 ++ n2) as ->
    by (apply emitted_app; by rewrite Hc2, Hc1, app_assoc).
  rewrite (emitted_app _ _ _ Hc2) in IH1, IH2.
  unfold announced in *. rewrite filter_app, length_app.
  destruct (decide (acc_id b = id)) as [Hid | Hid].
  - rewrite IH2 by (intros a Ha Ha'; apply Hset; congruence).
    rewrite app_nil_r, Nat.add_0_r. split.
    + etrans; [apply length_filter | done].
    + intros Hw. rewrite Hsil in Hc1 by (apply Hw; [apply list_elem_of_here | done]).
      rewrite <- (app_nil_r (created w)) in Hc1 at 1. apply app_inv_head in Hc1.
      by subst n1.
  - fold (announced id n1). rewrite (announced_other id (acc_id b)) by done.
    simpl. split; [done|]. intros Hw. apply IH2. intros a Ha Ha'.
    apply Hkeep, Hw; [by apply list_elem_of_further | done].
Qed.

(** C3.  Two passes in a row, neither forced, over the same accounts with
    the same settings and the same measured usage, every threshold being a
    percentage between 0 and 100 with at most one decimal place: the
    second pass creates no notification, and the two together create at
    most one notification per account. *)
Theorem second_pass_is_silent (accounts : list account) (w : world) :
  forceNotify = false ->
  (forall a, a ∈ accounts -> in_tenths (threshold_of (conf a))) ->
  let w1 := checkAllAccounts extShortName perAccount sumAccountBytes
              forceNotify onlyAccountId accounts w in
  let w2 := checkAllAccounts extShortName perAccount sumAccountBytes
              forceNotify onlyAccountId accounts w1 in
  emitted w1 w2 = [] /\
  forall id, (length (announced id (emitted w w2)) <= 1)%nat.
Proof.
  intros Hf Ht w1 w2.
  assert (created w2 = created w1) as H2.
  { subst w2. rewrite pass_created. apply loop_silent; [done..|].
    intros a Ha Hs Hm used Hu. subst w1. rewrite pass_lastNotifiedPct.
    by apply loop_settles. }
  split.
  - apply emitted_app. by rewrite app_nil_r.
  - intros id. unfold emitted at 1. rewrite H2. subst w1. rewrite pass_created.
    by apply (loop_announces_once accounts w top_init id).
Qed.

(** ** Invariants of the loop *)

Lemma loop_preserves (P : world -> Prop) l w t :
  (forall w t b, b ∈ l -> P w -> P (step (w, t) b).1) ->
  P w -> P (foldl step (w, t) l).1.
Proof.
  revert w t. induction l as [|b l IH]; intros w t Hstep Hw; [done|]. cbn [foldl].
  pose proof (Hstep w t b (list_elem_of_here _ _) Hw) as Hw'.
  destruct (step (w, t) b) as [w' t']. apply IH; [|done].
  intros w0 t0 b0 Hb0. apply Hstep. by apply list_elem_of_further.
Qed.

Lemma loop_establishes (P : world -> Prop) a l w t :
  a ∈ l -> (forall w t, P (step (w, t) a).1) ->
  (forall w t b, b ∈ l -> P w -> P (step (w, t) b).1) ->
  P (foldl step (w, t) l).1.
Proof.
  intros (l1 & l2 & ->)%list_elem_of_split Ha Hstep. rewrite foldl_app. cbn [foldl].
  destruct (foldl step (w, t) l1) as [w1 t1].
  pose proof (Ha w1 t1) as Hw'. destruct (step (w1, t1) a) as [w' t'].
  apply loop_preserves; [|done].
  intros w0 t0 b0 Hb0. apply Hstep, elem_of_app. right. by apply list_elem_of_further.
Qed.

(** No notification is created under the id of an account whose steps
    create none. *)
Lemma loop_never_announced l w t a :
  (forall w0 t0 b, b ∈ l -> acc_id b = acc_id a ->
     created (step (w0, t0) b).1 = created w0) ->
  nid a ∉ (emitted w (foldl step (w, t) l).1).*1.
Proof.
  intros Hq.
  cut (exists news, created (foldl step (w, t) l).1 = created w ++ news /\ nid a ∉ news.*1).
  { intros (news & Hc & Hn). by rewrite (emitted_app _ _ _ Hc). }
  apply (loop_preserves
           (fun w0 => exists news, created w0 = created w ++ news /\ nid a ∉ news.*1)).
  - intros w0 t0 b Hb (news & Hc & Hn).
    destruct (decide (acc_id b = acc_id a)) as [Hid | Hid].
    + exists news. by rewrite Hq.
    + destruct (step_created w0 t0 b) as (n1 & Hc1 & Hn1 & _).
      exists (news ++ n1). rewrite Hc1, Hc, <- app_assoc. split; [done|].
      rewrite fmap_app, not_elem_of_app. split; [done|].
      intros (e & He & Hin)%list_elem_of_fmap. rewrite Forall_forall in Hn1.
      rewrite (Hn1 e Hin) in He. by apply getNotificationId_inj in He.
  - exists []. rewrite app_nil_r. split; [done | apply not_elem_of_nil].
Qed.

(** The loop variables of the badge are those of the last step that
    changed them. *)
Lemma loop_top_app l1 l2 w t :
  (foldl step (w, t) (l1 ++ l2)).2 = (foldl step (w, (foldl step (w, t) l1).2) l2).2.
Proof.
  rewrite foldl_app. destruct (foldl step (w, t) l1) as [w1 t1]. apply loop_top_world.
Qed.

(** The badge after the pass, from the loop variables. *)
Lemma pass_badge l w :
  let t := (foldl step (w, top_init) l).2 in
  badge (pass l w) =
  badge (setBadge extShortName
           (if num_ge (topBadgePercent t) (num 0) then Some (topBadgePercent t) else None)
           (topBadgeAccountName t) w).
Proof.
  unfold checkAllAccounts. pose proof (loop_badge l w top_init) as Hb.
  destruct (foldl _ _ _) as [w' t']. simpl in *.
  unfold setBadge. case_match; simpl; by rewrite ?Hb.
Qed.

(** ** C2: accounts that are not monitored *)

(** The usage of an account is asked for only when it is in scope and
    monitored. *)
Lemma step_usage_ext (sumAccountBytes' : string -> option number) st b :
  (in_scope b -> not_monitored (conf b) = false ->
   sumAccountBytes' (acc_id b) = sumAccountBytes (acc_id b)) ->
  check_account perAccount sumAccountBytes' forceNotify onlyAccountId st b = step st b.
Proof.
  intros H. unfold check_account. destruct st as [w t].
  destruct (out_of_scope _ _); [done|]. destruct (not_monitored _); [done|].
  by rewrite H.
Qed.

Lemma pass_usage_ext (sumAccountBytes' : string -> option number) l w :
  (forall b, b ∈ l -> in_scope b -> not_monitored (conf b) = false ->
             sumAccountBytes' (acc_id b) = sumAccountBytes (acc_id b)) ->
  checkAllAccounts extShortName perAccount sumAccountBytes' forceNotify onlyAccountId l w
  = pass l w.
Proof.
  intros H. unfold checkAllAccounts.
  assert (forall st, foldl (check_account perAccount sumAccountBytes' forceNotify
                              onlyAccountId) st l = foldl step st l) as ->; [|done].
  induction l as [|b l IH]; intros st; [done|]. cbn [foldl].
  rewrite step_usage_ext by (apply H, list_elem_of_here).
  apply IH. intros b' Hb'. apply H. by apply list_elem_of_further.
Qed.

(** C2.  An account in the scope of the pass that is inactive or whose
    limit is not above zero: after the pass no notification is on display
    under its id, the state stored for it is 0, and the pass did not
    measure it (whatever the usage aggregator would have answered for it,
    the pass ends in the same world). *)
Theorem unmonitored_account_is_reset (accounts : list account) (w : world) (a : account) :
  a ∈ accounts -> in_scope a ->
  (active_of (conf a) = false \/ num_le (limit_of (conf a)) (num 0) = true) ->
  let w' := checkAllAccounts extShortName perAccount sumAccountBytes
              forceNotify onlyAccountId accounts w in
  notifications w' !! getNotificationId (acc_id a) = None /\
  lastNotifiedPct w' !! notify_state_key (acc_id a) = Some (num 0) /\
  (getNotificationId (acc_id a) ∉ (emitted w w').*1) /\
  forall sumAccountBytes' : string -> option number,
    (forall id, id <> acc_id a -> sumAccountBytes' id = sumAccountBytes id) ->
    checkAllAccounts extShortName perAccount sumAccountBytes'
      forceNotify onlyAccountId accounts w = w'.
Proof.
  intros Ha Hs Hcfg w'. apply not_monitored_true in Hcfg.
  assert (forall b, acc_id b = acc_id a ->
            in_scope b /\ not_monitored (conf b) = true) as Hsame.
  { intros b Hb. rewrite Hb. split; [|done]. revert Hs. unfold out_of_scope. by rewrite Hb. }
  split_and!.
  - subst w'. rewrite pass_notifications.
    apply (loop_establishes (fun w => notifications w !! nid a = None) a); [done|..].
    + intros w0 t0. rewrite step_not_monitored by done. simpl. apply lookup_delete_eq.
    + intros w0 t0 b _ Hw0. destruct (decide (acc_id b = acc_id a)) as [Hid | Hid].
      * destruct (Hsame b Hid). rewrite step_not_monitored by done. simpl.
        rewrite Hid. apply lookup_delete_eq.
      * rewrite step_other_notification; [done|].
        intros Hn. by apply getNotificationId_inj in Hn.
  - subst w'. rewrite pass_lastNotifiedPct.
    apply (loop_establishes (fun w => lastNotifiedPct w !! key a = Some (num 0)) a);
      [done|..].
    + intros w0 t0. rewrite step_not_monitored by done. simpl. apply lookup_insert_eq.
    + intros w0 t0 b _ Hw0. destruct (decide (acc_id b = acc_id a)) as [Hid | Hid].
      * destruct (Hsame b Hid). rewrite step_not_monitored by done. simpl.
        rewrite Hid. apply lookup_insert_eq.
      * rewrite step_other_key; [done|].
        intros Hn. by apply notify_state_key_inj in Hn.
  - subst w'. unfold emitted. rewrite pass_created. apply loop_never_announced.
    intros w0 t0 b _ Hid. destruct (Hsame b Hid). apply step_created_quiet. auto.
  - intros u' Hu. apply pass_usage_ext. intros b _ _ Hm.
    apply Hu. intros Hid. destruct (Hsame b Hid). congruence.
Qed.

(** ** C5: an account below its threshold *)

(** C5.  An account in scope, monitored and measured below its threshold:
    at the end of the pass no notification is on display under its id and
    none was created for it during the pass, and the badge is the one the
    pass shows without the account. *)
Theorem below_threshold_clears (l1 l2 : list account) (w : world) (a : account)
    (used : number) :
  in_scope a -> active_of (conf a) = true -> num_gt (limit a) (num 0) = true ->
  sumAccountBytes (acc_id a) = Some used ->
  num_lt (pct_of used (limit_of (conf a))) (threshold_of (conf a)) = true ->
  let w' := checkAllAccounts extShortName perAccount sumAccountBytes
              forceNotify onlyAccountId (l1 ++ a :: l2) w in
  notifications w' !! getNotificationId (acc_id a) = None /\
  (getNotificationId (acc_id a) ∉ (emitted w w').*1) /\
  badge w' = badge (checkAllAccounts extShortName perAccount sumAccountBytes
                      forceNotify onlyAccountId (l1 ++ l2) w).
Proof.
  intros Hs Hact Hlim Hu Hlt w'.
  assert (not_monitored (conf a) = false) as Hm by by apply not_monitored_false.
  pose proof (num_lt_not_ge _ _ Hlt) as Hge.
  assert (forall w0 b, acc_id b = acc_id a ->
            in_scope b /\ not_monitored (conf b) = false /\
            sumAccountBytes (acc_id b) = Some used /\
            num_lt (pct_of used (limit b)) (threshold b) = true /\
            announces w0 b (pct_of used (limit b)) = false) as Hsame.
  { intros w0 b Hb. unfold announces. rewrite Hb, Hlt, Hge, andb_false_r. split_and!; try done.
    revert Hs. unfold out_of_scope. by rewrite Hb. }
  split_and!.
  - subst w'. rewrite pass_notifications.
    assert (forall w0 t0 b, acc_id b = acc_id a ->
              notifications (step (w0, t0) b).1 !! nid a = None) as Hstep.
    { intros w0 t0 b Hid. destruct (Hsame w0 b Hid) as (H1 & H2 & H3 & H4 & H5).
      rewrite (step_measured _ _ _ used) by done. simpl. rewrite H4, H5. simpl.
      rewrite Hid. apply lookup_delete_eq. }
    apply (loop_establishes (fun w => notifications w !! nid a = None) a).
    + apply elem_of_app. right. apply list_elem_of_here.
    + intros w0 t0. by apply Hstep.
    + intros w0 t0 b _ Hw0. destruct (decide (acc_id b = acc_id a)) as [Hid | Hid].
      * by apply Hstep.
      * rewrite step_other_notification; [done|].
        intros Hn. by apply getNotificationId_inj in Hn.
  - subst w'. unfold emitted. rewrite pass_created. apply loop_never_announced.
    intros w0 t0 b _ Hid. destruct (Hsame w0 b Hid) as (H1 & H2 & H3 & H4 & H5).
    rewrite (step_created_measured _ _ _ used) by done. by rewrite H5, app_nil_r.
  - subst w'. rewrite !pass_badge. cbn zeta. rewrite !loop_top_app. cbn [foldl].
    rewrite (step_measured _ _ _ used) by done. unfold top_after. rewrite Hge.
    by rewrite (loop_top_world l2 _ w).
Qed.

(** ** C6: a failed enumeration *)

(** Two worlds that differ at most in what was logged to the console. *)
Definition same_but_console (w w' : world) : Prop :=
  lastNotifiedPct w = lastNotifiedPct w' /\ notifications w = notifications w' /\
  created w = created w' /\ badge w = badge w'.

Lemma step_same_but_console w w' t b :
  same_but_console w w' -> same_but_console (step (w, t) b).1 (step (w', t) b).1.
Proof.
  destruct w, w'. unfold same_but_console. simpl. intros (-> & -> & -> & ->).
  destruct (step_cases b) as [H1 | H1 H2 | H1 H2 H3 | used H1 H2 H3].
  - by rewrite !step_out_of_scope.
  - by rewrite !step_not_monitored.
  - by rewrite !step_failed.
  - rewrite !(step_measured _ _ _ used) by done. unfold announces. simpl.
    repeat case_match; done.
Qed.

Lemma loop_same_but_console l w w' t :
  same_but_console w w' ->
  same_but_console (foldl step (w, t) l).1 (foldl step (w', t) l).1.
Proof.
  revert w w' t. induction l as [|b l IH]; intros w w' t Hw; [done|]. cbn [foldl].
  pose proof (step_same_but_console w w' t b Hw) as Hw'.
  pose proof (step_top_world w w' t b) as Ht.
  destruct (step (w, t) b) as [w1 t1], (step (w', t) b) as [w1' t1'].
  simpl in Ht. subst t1'. by apply IH.
Qed.

Lemma pass_same_but_console l l' w :
  same_but_console (foldl step (w, top_init) l).1 (foldl step (w, top_init) l').1 ->
  (foldl step (w, top_init) l).2 = (foldl step (w, top_init) l').2 ->
  same_but_console (pass l w) (pass l' w).
Proof.
  unfold checkAllAccounts.
  destruct (foldl step (w, top_init) l) as [w1 t1], (foldl step (w, top_init) l') as [w2 t2].
  simpl. intros (H1 & H2 & H3 & H4) ->. unfold setBadge, same_but_console.
  case_match; simpl; by rewrite ?H4.
Qed.

(** C6.  When the usage of an account in scope, active and with a limit
    above zero cannot be enumerated, the pass leaves the state stored for
    it and the notification on display under its id as they were, creates
    no notification for it, and otherwise ends as the pass over the other
    accounts does: the accounts after it are processed all the same, and
    only the console tells the two passes apart. *)
Theorem failed_enumeration_skips_account (l1 l2 : list account) (w : world) (a : account) :
  in_scope a -> active_of (conf a) = true -> num_gt (limit a) (num 0) = true ->
  sumAccountBytes (acc_id a) = None ->
  let w' := checkAllAccounts extShortName perAccount sumAccountBytes
              forceNotify onlyAccountId (l1 ++ a :: l2) w in
  lastNotifiedPct w' !! notify_state_key (acc_id a)
    = lastNotifiedPct w !! notify_state_key (acc_id a) /\
  notifications w' !! getNotificationId (acc_id a)
    = notifications w !! getNotificationId (acc_id a) /\
  (getNotificationId (acc_id a) ∉ (emitted w w').*1) /\
  same_but_console w' (checkAllAccounts extShortName perAccount sumAccountBytes
                         forceNotify onlyAccountId (l1 ++ l2) w).
Proof.
  intros Hs Hact Hlim Hu w'.
  assert (not_monitored (conf a) = false) as Hm by by apply not_monitored_false.
  assert (forall w0 t0 b, acc_id b = acc_id a ->
            step (w0, t0) b
            = (console_error ("Summation failed for account " +:+ acc_id b) w0, t0)) as Hsame.
  { intros w0 t0 b Hb. apply step_failed; rewrite ?Hb; try done.
    revert Hs. unfold out_of_scope. by rewrite Hb. }
  split_and!.
  - subst w'. rewrite pass_lastNotifiedPct.
    apply (loop_preserves (fun w0 => lastNotifiedPct w0 !! key a = lastNotifiedPct w !! key a));
      [|done].
    intros w0 t0 b _ Hw0. destruct (decide (acc_id b = acc_id a)) as [Hid | Hid].
    + by rewrite Hsame.
    + rewrite step_other_key; [done|]. intros Hn. by apply notify_state_key_inj in Hn.
  - subst w'. rewrite pass_notifications.
    apply (loop_preserves (fun w0 => notifications w0 !! nid a = notifications w !! nid a));
      [|done].
    intros w0 t0 b _ Hw0. destruct (decide (acc_id b = acc_id a)) as [Hid | Hid].
    + by rewrite Hsame.
    + rewrite step_other_notification; [done|].
      intros Hn. by apply getNotificationId_inj in Hn.
  - subst w'. unfold emitted. rewrite pass_created. apply loop_never_announced.
    intros w0 t0 b _ Hid. by rewrite Hsame.
  - subst w'. apply pass_same_but_console.
    + rewrite !foldl_app. cbn [foldl].
      destruct (foldl step (w, top_init) l1) as [w1 t1]. rewrite Hsame by done.
      by apply loop_same_but_console.
    + rewrite !loop_top_app. cbn [foldl]. by rewrite Hsame, (loop_top_world l2 _ w).
Qed.

(** ** C4: the badge *)

(** The account was processed by the pass and found at or above its
    threshold, with [used] bytes in use. *)
Definition over_threshold (a : account) (used : number) : Prop :=
  out_of_scope onlyAccountId a = false /\ not_monitored (conf_of perAccount (acc_id a)) = false /\
  sumAccountBytes (acc_id a) = Some used /\
  num_ge (pct_of used (limit a)) (threshold a) = true.

(** The loop variables when the account is the worst so far. *)
Definition top_of (a : account) (used : number) : top :=
  {| topBadgeAccountName := Some (display_name a);
     topBadgePercent := Math_floor (pct_of used (limit a)) |}.

Lemma step_top w t b :
  is_NaN (topBadgePercent t) = false ->
  let t1 := (step (w, t) b).2 in
  is_NaN (topBadgePercent t1) = false /\
  num_le (topBadgePercent t) (topBadgePercent t1) = true /\
  (forall used, over_threshold b used ->
     num_le (Math_floor (pct_of used (limit b))) (topBadgePercent t1) = true) /\
  (t1 = t \/ exists used, over_threshold b used /\ t1 = top_of b used).
Proof.
  intros Ht. pose proof (num_le_refl _ Ht) as Hrefl.
  destruct (step_cases b) as [H1 | H1 H2 | H1 H2 H3 | used H1 H2 H3]; cbn zeta.
  1-3: rewrite ?step_out_of_scope, ?step_not_monitored, ?step_failed by done;
    simpl; split_and!; auto; intros used (? & ? & ? & ?); congruence.
  rewrite (step_measured _ _ _ used) by done. simpl. unfold top_after.
  destruct (num_ge _ _) eqn:Hge.
  - assert (is_NaN (Math_floor (pct_of used (limit b))) = false) as Hfl.
    { rewrite Math_floor_NaN. by apply num_ge_not_NaN in Hge as [? _]. }
    destruct (num_gt _ _) eqn:Hgt; simpl.
    + split_and!; [done | by apply num_lt_le | |].
      * intros used' (_ & _ & Hu & _). assert (used' = used) as -> by congruence.
        by apply num_le_refl.
      * right. exists used. by split.
    + split_and!; [done | done | | by left].
      intros used' (_ & _ & Hu & _). assert (used' = used) as -> by congruence.
      by apply num_not_gt_le.
  - split_and!; [done | done | | by left].
    intros used' (_ & _ & Hu & Hge'). assert (used' = used) as -> by congruence.
    congruence.
Qed.

Lemma loop_top l w t :
  is_NaN (topBadgePercent t) = false ->
  let t' := (foldl step (w, t) l).2 in
  is_NaN (topBadgePercent t') = false /\
  num_le (topBadgePercent t) (topBadgePercent t') = true /\
  (forall b used, b ∈ l -> over_threshold b used ->
     num_le (Math_floor (pct_of used (limit b))) (topBadgePercent t') = true) /\
  (t' = t \/ exists a used, a ∈ l /\ over_threshold a used /\ t' = top_of a used).
Proof.
  revert w t. induction l as [|b l IH]; intros w t Ht; cbn zeta.
  { simpl. split_and!; [done | by apply num_le_refl | | by left].
    intros b used Hb. by apply elem_of_nil in Hb. }
  cbn [foldl]. destruct (step_top w t b Ht) as (H1 & H2 & H3 & H4).
  destruct (step (w, t) b) as [w1 t1]. simpl in H1, H2, H3, H4.
  destruct (IH w1 t1 H1) as (I1 & I2 & I3 & I4). cbn zeta in *.
  split_and!.
  - done.
  - by eapply num_le_trans.
  - intros c used [-> | Hc]%elem_of_cons Hover.
    + eapply num_le_trans; [by apply H3 | done].
    + by apply I3.
  - destruct I4 as [-> | (a & used & Ha & Hover & ->)].
    + destruct H4 as [-> | (used & Hover & ->)]; [by left|].
      right. exists b, used. split_and!; [apply list_elem_of_here | done..].
    + right. exists a, used. split_and!; [by apply list_elem_of_further | done..].
Qed.

(** C4.  Usage being a byte count (not negative): when an account of the
    pass is at or above its threshold, the badge text is the floored
    percentage of one of those accounts (a decimal integer when the
    percentage is finite) followed by a percent sign, no other of them has
    a greater floored percentage, and the tooltip is the name of that
    account (its id when it has no name); when no account of the pass is
    at or above its threshold, the badge text is empty and the tooltip is
    the default one. *)
Theorem badge_shows_worst_account (accounts : list account) (w : world) :
  (forall a used, a ∈ accounts -> sumAccountBytes (acc_id a) = Some used ->
                  num_le (num 0) used = true) ->
  let b := badge (checkAllAccounts extShortName perAccount sumAccountBytes
                    forceNotify onlyAccountId accounts w) in
  ((exists a used, a ∈ accounts /\ over_threshold a used) ->
   exists worst used,
     worst ∈ accounts /\ over_threshold worst used /\
     (forall c used', c ∈ accounts -> over_threshold c used' ->
        num_le (Math_floor (pct_of used' (limit c)))
               (Math_floor (pct_of used (limit worst))) = true) /\
     badge_text b = Number_toString (Math_floor (pct_of used (limit worst))) +:+ "%" /\
     (forall q, pct_of used (limit worst) = Fin q ->
                badge_text b = pretty (Qfloor q) +:+ "%") /\
     badge_title b = str_or (display_name worst) (default_title extShortName) /\
     (acc_name worst <> "" -> badge_title b = acc_name worst)) /\
  ((forall a used, a ∈ accounts -> ~ over_threshold a used) ->
   badge_text b = "" /\ badge_title b = default_title extShortName).
Proof.
  intros Hnn b. subst b. rewrite pass_badge. cbn zeta.
  destruct (loop_top accounts w top_init eq_refl) as (_ & H2 & H3 & H4). cbn zeta in *.
  set (t' := (foldl step (w, top_init) accounts).2) in *. clearbody t'.
  split.
  - intros (a & used & Ha & Hover).
    assert (num_lt (num (-1)) (topBadgePercent t') = true) as Hpos.
    { eapply num_lt_le_trans; [|by apply (H3 a used)].
      apply Math_floor_nonneg. destruct Hover as (_ & Hm & Hu & Hge).
      apply not_monitored_false in Hm as [_ Hlim].
      destruct (pct_of_nonneg used (limit a) (Hnn a used Ha Hu) Hlim) as [HN | Hp]; [|done].
      apply num_ge_not_NaN in Hge as [? _]. congruence. }
    destruct H4 as [-> | (worst & used' & Hw & Hover' & ->)]; [done|].
    exists worst, used'. simpl in *.
    assert (num_ge (Math_floor (pct_of used' (limit worst))) (num 0) = true) as ->.
    { revert Hpos. destruct (Math_floor _) as [| | |q] eqn:E; try done.
      destruct (pct_of used' (limit worst)); try done. simpl in E. injection E as <-.
      unfold num. num_unfold. simpl. qcases; try done; intros _.
      - rewrite <- Zlt_Qlt in *. lia.
      - rewrite <- Zlt_Qlt in *. lia. }
    simpl. split_and!; try done.
    + intros q ->. by rewrite Number_toString_floor.
    + intros Hname. unfold display_name, str_or. by repeat case_decide.
  - intros Hnone. destruct H4 as [-> | (worst & used' & Hw & Hover' & _)].
    + done.
    + by destruct (Hnone worst used' Hw).
Qed.

(** ** C10: a pass over a single account *)

(** The text and the tooltip [setBadge] shows for given loop variables. *)
Definition shown_text (t : top) : string :=
  if num_ge (topBadgePercent t) (num 0)
  then Number_toString (topBadgePercent t) +:+ "%" else "".

Definition shown_title (t : top) : string :=
  if num_ge (topBadgePercent t) (num 0)
  then str_or (default "" (topBadgeAccountName t)) (default_title extShortName)
  else default_title extShortName.

Lemma pass_badge_shown l w :
  let t := (foldl step (w, top_init) l).2 in
  badge_text (badge (pass l w)) = shown_text t /\
  badge_title (badge (pass l w)) = shown_title t.
Proof.
  cbn zeta. rewrite pass_badge. cbn zeta. unfold shown_text, shown_title, setBadge.
  by destruct (num_ge _ _).
Qed.

(** When no account of the pass is at or above its threshold the loop
    variables are the initial ones. *)
Lemma loop_top_none l w :
  (forall a used, a ∈ l -> ~ over_threshold a used) ->
  (foldl step (w, top_init) l).2 = top_init.
Proof.
  intros Hnone. destruct (loop_top l w top_init eq_refl) as (_ & _ & _ & H4).
  destruct H4 as [-> | (worst & used' & Hw & Hover' & _)]; [done|].
  by destruct (Hnone worst used' Hw).
Qed.

(** In a pass over the account [id] alone, the loop variables are the
    same for any settings and usage that agree on [id]. *)
Lemma scoped_step_top (perAccount' : gmap string AccountConfig)
    (sumAccountBytes' : string -> option number) (forceNotify' : bool)
    (id : string) w w' t b :
  onlyAccountId = Some id -> id <> "" ->
  perAccount' !! id = perAccount !! id -> sumAccountBytes' id = sumAccountBytes id ->
  (check_account perAccount' sumAccountBytes' forceNotify' onlyAccountId (w', t) b).2
  = (step (w, t) b).2.
Proof.
  intros Honly Hid Hconf Hu. unfold check_account.
  destruct (out_of_scope onlyAccountId b) eqn:Hs; [done|].
  assert (acc_id b = id) as ->.
  { revert Hs. unfold out_of_scope. rewrite Honly.
    rewrite (bool_decide_eq_false_2 _ Hid). simpl.
    intros Hb%negb_false_iff. by apply bool_decide_eq_true in Hb. }
  unfold conf_of. rewrite Hconf, Hu.
  destruct (not_monitored _); [done|]. by destruct (sumAccountBytes id).
Qed.

Lemma scoped_loop_top (perAccount' : gmap string AccountConfig)
    (sumAccountBytes' : string -> option number) (forceNotify' : bool)
    (id : string) l w w' t :
  onlyAccountId = Some id -> id <> "" ->
  perAccount' !! id = perAccount !! id -> sumAccountBytes' id = sumAccountBytes id ->
  (foldl (check_account perAccount' sumAccountBytes' forceNotify' onlyAccountId) (w', t) l).2
  = (foldl step (w, t) l).2.
Proof.
  intros Honly Hid Hconf Hu. revert w w' t.
  induction l as [|b l IH]; intros w w' t; [done|]. cbn [foldl].
  pose proof (scoped_step_top perAccount' sumAccountBytes' forceNotify' id w w' t b
                Honly Hid Hconf Hu) as Hb.
  destruct (check_account perAccount' _ _ _ _ b) as [w1' t1'].
  destruct (step (w, t) b) as [w1 t1]. simpl in Hb. subst t1'. apply IH.
Qed.

End MonitorFacts.

(** C10.  A pass over the single account [id]: the badge text and the
    tooltip it ends with are the same whatever the settings and the usage
    of the other accounts, the forced flag and the world before; and when
    the account is not monitored, cannot be measured or is measured below
    its threshold, the text is empty and the tooltip is the default one,
    whatever the badge showed before. *)
Theorem scoped_pass_badge (extShortName : string)
    (perAccount perAccount' : gmap string AccountConfig)
    (sumAccountBytes sumAccountBytes' : string -> option number)
    (forceNotify forceNotify' : bool) (id : string)
    (accounts : list account) (w w' : world) :
  id <> "" ->
  perAccount' !! id = perAccount !! id -> sumAccountBytes' id = sumAccountBytes id ->
  let b := badge (checkAllAccounts extShortName perAccount sumAccountBytes
                    forceNotify (Some id) accounts w) in
  let b' := badge (checkAllAccounts extShortName perAccount' sumAccountBytes'
                     forceNotify' (Some id) accounts w') in
  (badge_text b' = badge_text b /\ badge_title b' = badge_title b) /\
  (not_monitored (conf_of perAccount id) = true \/ sumAccountBytes id = None \/
   (exists used, sumAccountBytes id = Some used /\
      num_lt (pct_of used (limit_of (conf_of perAccount id)))
             (threshold_of (conf_of perAccount id)) = true) ->
   badge_text b = "" /\ badge_title b = default_title extShortName).
Proof.
  intros Hid Hconf Hu b b'. subst b b'.
  destruct (pass_badge_shown extShortName perAccount sumAccountBytes forceNotify
              (Some id) accounts w) as [-> ->].
  destruct (pass_badge_shown extShortName perAccount' sumAccountBytes' forceNotify'
              (Some id) accounts w') as [-> ->].
  split.
  - by rewrite (scoped_loop_top perAccount sumAccountBytes forceNotify (Some id)
                  perAccount' sumAccountBytes' forceNotify' id accounts w w' top_init).
  - intros Hcase. rewrite loop_top_none; [done|].
    intros a used Ha (Hs & Hm & Hused & Hge).
    assert (acc_id a = id) as Ha'.
    { revert Hs. unfold out_of_scope. rewrite (bool_decide_eq_false_2 _ Hid). simpl.
      intros Hb%negb_false_iff. by apply bool_decide_eq_true in Hb. }
    rewrite Ha' in *. destruct Hcase as [H | [H | (used' & H & Hlt)]]; [congruence.. |].
    assert (used' = used) as -> by congruence.
    apply num_lt_not_ge in Hlt. congruence.
Qed.

(** ** The older copy of the script *)

(** The older loop leaves an account that is not monitored as it found
    it: the notification stays on display and the stored state is kept. *)
Lemma legacy_skips_unmonitored perAccount sumAccountBytes forceNotify onlyAccountId now
    (w : world) (t : top) (a : account) :
  not_monitored (conf_of perAccount (acc_id a)) = true ->
  Legacy.check_account perAccount sumAccountBytes forceNotify onlyAccountId now (w, t) a
  = (w, t).
Proof.
  unfold not_monitored, Legacy.check_account. intros H.
  destruct (out_of_scope _ _); [done|].
  destruct (active_of _); [|done]. simpl in *. by rewrite H.
Qed.

(** The older loop does not clear the notification of an account measured
    below its threshold. *)
Lemma legacy_keeps_notification_below_threshold perAccount sumAccountBytes forceNotify
    onlyAccountId now (w : world) (t : top) (a : account) (used : number) :
  sumAccountBytes (acc_id a) = Some used ->
  num_lt (pct_of used (limit_of (conf_of perAccount (acc_id a))))
         (threshold_of (conf_of perAccount (acc_id a))) = true ->
  notifications
    (Legacy.check_account perAccount sumAccountBytes forceNotify onlyAccountId now (w, t) a).1
  = notifications w.
Proof.
  intros Hu Hlt. unfold Legacy.check_account.
  destruct (out_of_scope _ _); [done|]. destruct (negb (active_of _)); [done|].
  destruct (negb (truthy _) || num_le _ _); [done|]. rewrite Hu.
  apply num_lt_not_ge in Hlt. rewrite Hlt. by rewrite andb_false_r.
Qed.

(** ** C7: the scheduler *)

Lemma num_compare_num a b : num_compare (num a) (num b) = Some (a ?= b).
Proof. unfold num, num_compare, Qcompare. simpl. by rewrite !Z.mul_1_r. Qed.

Lemma Math_max_num a b : Math_max (num a) (num b) = num (Z.max a b).
Proof. unfold Math_max, Z.max. rewrite num_compare_num. by destruct (a ?= b). Qed.

Lemma num_eq_num a b : num_eq (num a) (num b) = true <-> a = b.
Proof.
  unfold num_eq. rewrite num_compare_num.
  destruct (Z.compare_spec a b); split; intros; first [done | lia | exfalso; lia].
Qed.

Lemma num_ge_num a b : num_ge (num a) (num b) = true <-> b <= a.
Proof.
  unfold num_ge, num_le. rewrite num_compare_num.
  destruct (Z.compare_spec b a); split; intros; first [done | lia | exfalso; lia].
Qed.

(** The whole minutes of a finite interval. *)
Lemma whole_minutes_Fin v : whole_minutes (Fin v) = num (Z.max 0 (Qfloor v)).
Proof.
  unfold whole_minutes, truthy. destruct (Qeq_bool v 0) eqn:E; simpl.
  - apply Qeq_bool_iff in E. rewrite (Qfloor_comp _ _ E).
    change (Math_floor (num 0)) with (num 0). apply Math_max_num.
  - apply Math_max_num.
Qed.

(** [Math.floor(Math.max(0, v))], as the specification words the test. *)
Lemma floor_max_Fin v : Math_floor (Math_max (num 0) (Fin v)) = num (Z.max 0 (Qfloor v)).
Proof.
  unfold Math_max, num_compare, num.
  destruct (Qcompare_cases (inject_Z 0) v) as [[-> H] | [[-> H] | [-> H]]]; simpl.
  - assert (0 <= Qfloor v) as Hk.
    { change 0 with (Qfloor (inject_Z 0)). apply Qfloor_resp_le. lra. }
    by rewrite Z.max_r.
  - rewrite <- (Qfloor_comp _ _ H). by change (Qfloor (inject_Z 0)) with 0.
  - assert (Qfloor v <= 0) as Hk.
    { change 0 with (Qfloor (inject_Z 0)) at 1. apply Qfloor_resp_le. lra. }
    by rewrite Z.max_l.
Qed.

(** C7, as amended.  Re-arming from the stored interval: the alarm that
    was armed before plays no part and no other alarm is touched.  When
    the slot holds a finite number [v]: if floor(max(0, v)) is 0 no alarm
    is left, and if floor(v) is at least 1 the one alarm has the period
    max(1, floor(v)), which is floor(v) whole minutes; one of the two
    applies.  When the slot is missing or holds anything else (a value
    that is not a number, NaN, an infinity) the alarm is armed with the
    default period of 360 minutes. *)
Theorem schedule_from_stored_interval (slot : option jsval) (alarms : gmap string number) :
  let alarms' := scheduleChecksFromSettings slot alarms in
  alarms' = scheduleChecksFromSettings slot (delete ALARM_NAME alarms) /\
  (forall name, name <> ALARM_NAME -> alarms' !! name = alarms !! name) /\
  (forall v, slot = Some (JSnumber (Fin v)) ->
     (num_eq (Math_floor (Math_max (num 0) (Fin v))) (num 0) = true ->
      alarms' !! ALARM_NAME = None) /\
     (num_ge (Math_floor (Fin v)) (num 1) = true ->
      alarms' !! ALARM_NAME = Some (Math_max (num 1) (Math_floor (Fin v))) /\
      Math_max (num 1) (Math_floor (Fin v)) = num (Qfloor v)) /\
     (num_eq (Math_floor (Math_max (num 0) (Fin v))) (num 0) = true \/
      num_ge (Math_floor (Fin v)) (num 1) = true)) /\
  ((forall v, slot <> Some (JSnumber (Fin v))) ->
   alarms' !! ALARM_NAME = Some MFA_DEFAULT_CHECK_INTERVAL_MIN).
Proof.
  cbn zeta. split_and!.
  - unfold scheduleChecksFromSettings. by rewrite delete_delete_eq.
  - intros name Hname. unfold scheduleChecksFromSettings.
    case_match; rewrite ?lookup_insert_ne by done; by rewrite lookup_delete_ne.
  - intros v ->. unfold scheduleChecksFromSettings.
    change (getGlobalIntervalMin (Some (JSnumber (Fin v)))) with (Fin v).
    rewrite whole_minutes_Fin, floor_max_Fin.
    change (Math_floor (Fin v)) with (num (Qfloor v)).
    rewrite !Math_max_num, num_ge_num.
    destruct (num_eq (num (Z.max 0 (Qfloor v))) (num 0)) eqn:E.
    + apply num_eq_num in E. split_and!; [intros _; apply lookup_delete_eq | lia | by left].
    + assert (Z.max 0 (Qfloor v) <> 0) as Hk by (intros Hk%num_eq_num; congruence).
      split_and!; [done | | right; lia].
      intros Hge. rewrite lookup_insert_eq. split; do 2 f_equal; lia.
  - intros Hslot. unfold scheduleChecksFromSettings.
    assert (getGlobalIntervalMin slot = MFA_DEFAULT_CHECK_INTERVAL_MIN) as ->.
    { destruct slot as [[| | |[| | |v]|]|]; try done. by destruct (Hslot v). }
    assert (whole_minutes MFA_DEFAULT_CHECK_INTERVAL_MIN = num 360) as -> by by vm_compute.
    rewrite Math_max_num. change (num_eq (num 360) (num 0)) with false. cbn iota.
    by rewrite lookup_insert_eq.
Qed.

(** The claim as the specification states it counts a stored value that is
    not a number among the values that disable the alarm. *)
Definition claimed_to_disable (stored : jsval) : Prop :=
  match stored with
  | JSnumber n => num_eq (Math_floor (Math_max (num 0) n)) (num 0) = true
  | _ => True
  end.

(** C7, counterexample: a stored interval that is not a number does not
    disable the alarm; the default of 360 minutes is armed. *)
Lemma stored_text_arms_default_interval :
  claimed_to_disable (JSstring "soon") /\
  scheduleChecksFromSettings (Some (JSstring "soon")) ∅ !! ALARM_NAME = Some (num 360).
Proof. split; [exact I | by vm_compute]. Qed.

Example schedule_zero :
  scheduleChecksFromSettings (Some (JSnumber (num 0))) {[ALARM_NAME := num 360]} = ∅.
Proof. by vm_compute. Qed.

Example schedule_45 :
  scheduleChecksFromSettings (Some (JSnumber (num 45))) {[ALARM_NAME := num 360]}
  = {[ALARM_NAME := num 45]}.
Proof. by vm_compute. Qed.

Example schedule_half : scheduleChecksFromSettings (Some (JSnumber (Fin (1 # 2)))) ∅ = ∅.
Proof. by vm_compute. Qed.

Example schedule_negative : scheduleChecksFromSettings (Some (JSnumber (num (-3)))) ∅ = ∅.
Proof. by vm_compute. Qed.

Example schedule_missing : scheduleChecksFromSettings None ∅ = {[ALARM_NAME := num 360]}.
Proof. by vm_compute. Qed.

(** Through the settings message a value that is not a number is stored
    as 0, which disables the alarm. *)
Lemma save_non_numeric_disables (StringToNumber : string -> number) (s : string)
    (alarms : gmap string number) :
  StringToNumber s = NaN ->
  saveGlobalSettingsMinutes StringToNumber (JSstring s) alarms
  = (Some (JSnumber (num 0)), delete ALARM_NAME alarms).
Proof. intros H. unfold saveGlobalSettingsMinutes. simpl. by rewrite H. Qed.

(** ** C9: the sum over a folder *)

(** The sizes that are numbers, in the order of the messages. *)
Definition numeric_sizes (msgs : list message) : list number :=
  omap (fun m => match msg_size m with JSnumber n => Some n | _ => None end) msgs.

(** The sum of a list of numbers, added up from the left. *)
Definition sum_numbers (ns : list number) : number := foldl num_add (num 0) ns.

Section AggregatorFacts.
Context (continueList : string -> option page).

(** The pages of a listing that starts with the given page, in the order
    [continueList] hands them out; the last one carries no continuation
    token. *)
Inductive listing : page -> list page -> Prop :=
  | listing_last p :
      page_id p = None \/ page_id p = Some ""%string -> listing p [p]
  | listing_more p id next rest :
      page_id p = Some id -> id <> ""%string -> continueList id = Some next ->
      listing next rest -> listing p (p :: rest).

Lemma sum_page_numeric total p :
  sum_page total p = foldl num_add total (numeric_sizes (page_messages p)).
Proof.
  unfold sum_page, numeric_sizes. generalize (page_messages p). intros msgs.
  revert total. induction msgs as [|m msgs IH]; intros total; [done|].
  simpl. rewrite IH. unfold add_message_size. by destruct (msg_size m).
Qed.

Lemma numeric_sizes_app l1 l2 : numeric_sizes (l1 ++ l2) = numeric_sizes l1 ++ numeric_sizes l2.
Proof. apply omap_app. Qed.

Lemma sum_pages_listing p ps :
  listing p ps ->
  forall fuel total, (length ps <= S fuel)%nat ->
  sum_pages continueList fuel total p
  = Returned (foldl num_add total (numeric_sizes (concat (page_messages <$> ps)))).
Proof.
  induction 1 as [p Hp | p id next rest Hid Hne Hnext Hrest IH]; intros fuel total Hfuel.
  - simpl. rewrite app_nil_r, <- sum_page_numeric.
    destruct fuel; simpl; destruct Hp as [-> | ->]; done.
  - simpl in Hfuel. destruct fuel as [|fuel].
    { inversion Hrest; subst; simpl in Hfuel; lia. }
    simpl. rewrite Hid. destruct (decide (id = "")); [done|]. rewrite Hnext.
    rewrite IH by lia. by rewrite numeric_sizes_app, foldl_app, <- sum_page_numeric.
Qed.

(** A folder that cannot be listed fails the whole account. *)
Lemma walk_throws fuel subFolders fetched total :
  walk continueList fuel (Folder None subFolders fetched) total = Thrown.
Proof. reflexivity. Qed.

(** C9.  For a listing of finitely many pages and fuel for each of them,
    [sumFolderMessagesSize] returns the sum of the sizes that are numbers,
    over the messages of all the pages; a message whose size is missing or
    not a number adds nothing, wherever it stands. *)
Theorem folder_sum_counts_numeric_sizes (first : page) (pages : list page) (fuel : nat) :
  listing first pages -> (length pages <= S fuel)%nat ->
  sumFolderMessagesSize continueList fuel (Some first)
  = Returned (sum_numbers (numeric_sizes (concat (page_messages <$> pages)))) /\
  forall (before after : list message) (m : message),
    (forall n, msg_size m <> JSnumber n) ->
    sum_numbers (numeric_sizes (before ++ m :: after))
    = sum_numbers (numeric_sizes (before ++ after)).
Proof.
  intros Hl Hfuel. split.
  - by apply sum_pages_listing.
  - intros before after m Hm. rewrite !numeric_sizes_app. do 2 f_equal.
    unfold numeric_sizes. simpl. destruct (msg_size m) as [| | |n|]; try done.
    by destruct (Hm n).
Qed.

End AggregatorFacts.

(** ** The scheduler, beyond the claims *)

(** The interval read back is always a finite number. *)
Lemma getGlobalIntervalMin_finite slot : exists v, getGlobalIntervalMin slot = Fin v.
Proof.
  destruct slot as [[| | |[| | |v]|]|]; try (by exists (inject_Z 360)). by exists v.
Qed.

(** X1.  [scheduleChecksFromSettings] touches the quota alarm only, and
    re-arming twice is re-arming once: applied to its own result it
    changes nothing, so repeated calls never stack alarms. *)
Theorem rearm_is_idempotent (slot : option jsval) (alarms : gmap string number) :
  scheduleChecksFromSettings slot (scheduleChecksFromSettings slot alarms)
  = scheduleChecksFromSettings slot alarms /\
  forall name, name <> ALARM_NAME ->
    scheduleChecksFromSettings slot alarms !! name = alarms !! name.
Proof.
  unfold scheduleChecksFromSettings. destruct (num_eq _ _).
  - split; [by rewrite delete_delete_eq|]. intros name Hn. by rewrite lookup_delete_ne.
  - split; [by rewrite delete_insert_eq, delete_delete_eq|].
    intros name Hn. by rewrite lookup_insert_ne, lookup_delete_ne.
Qed.

(** X2.  Whatever the interval slot holds, an armed quota alarm has a
    period of a whole number of minutes, at least 1 (the alarms of the
    host require that). *)
Theorem armed_period_is_whole_minutes (slot : option jsval) (alarms : gmap string number)
    (period : number) :
  scheduleChecksFromSettings slot alarms !! ALARM_NAME = Some period ->
  exists k : Z, 1 <= k /\ period = num k.
Proof.
  unfold scheduleChecksFromSettings.
  destruct (getGlobalIntervalMin_finite slot) as [v ->].
  rewrite whole_minutes_Fin, Math_max_num.
  destruct (num_eq _ _) eqn:E.
  - by rewrite lookup_delete_eq.
  - rewrite lookup_insert_eq. intros [= <-].
    exists (Z.max 1 (Z.max 0 (Qfloor v))). split; [lia | done].
Qed.

(** ** The monitor, beyond the claims *)

Section MonitorMore.
Context (extShortName : string).
Context (perAccount : gmap string AccountConfig)
        (sumAccountBytes : string -> option number)
        (forceNotify : bool) (onlyAccountId : option string).

Local Abbreviation step := (check_account perAccount sumAccountBytes forceNotify onlyAccountId).
Local Abbreviation conf a := (conf_of perAccount (acc_id a)).
Local Abbreviation limit a := (limit_of (conf a)).
Local Abbreviation threshold a := (threshold_of (conf a)).
Local Abbreviation key a := (notify_state_key (acc_id a)).
Local Abbreviation nid a := (getNotificationId (acc_id a)).
Local Abbreviation pass :=
  (checkAllAccounts extShortName perAccount sumAccountBytes forceNotify onlyAccountId).
Local Abbreviation over a used :=
  (over_threshold perAccount sumAccountBytes onlyAccountId a used).

(** What [notify] shows for the account. *)
Definition notification_of (a : account) (used : number) : notification :=
  {| n_account := display_name a; n_used := used; n_limit := limit a;
     n_pctUsed := pct_of used (limit a); n_threshold := threshold a |}.






(** An account in the scope of a pass over one account has its id. *)
Lemma in_scope_only id b :
  id <> "" -> out_of_scope (Some id) b = false -> acc_id b = id.
Proof.
  intros Hid. unfold out_of_scope. rewrite (bool_decide_eq_false_2 _ Hid). simpl.
  intros Hb%negb_false_iff. by apply bool_decide_eq_true in Hb.
Qed.
End MonitorMore.

(** A pass over the single account [id] touches the stored state and the
    notification of that account only. *)
Lemma scoped_pass_frame (extShortName : string)
    (perAccount : gmap string AccountConfig) (sumAccountBytes : string -> option number)
    (forceNotify : bool) (id : string) (accounts : list account) (w : world) :
  id <> "" ->
  let w' := checkAllAccounts extShortName perAccount sumAccountBytes forceNotify
              (Some id) accounts w in
  (forall k, k <> notify_state_key id -> lastNotifiedPct w' !! k = lastNotifiedPct w !! k) /\
  (forall n, n <> getNotificationId id -> notifications w' !! n = notifications w !! n).
Proof.
  intros Hid w'. subst w'.
  assert (forall b, out_of_scope (Some id) b = true \/ acc_id b = id) as Hscope.
  { intros b. destruct (out_of_scope (Some id) b) eqn:E; [by left|].
    right. by apply in_scope_only. }
  split.
  - intros k Hk. rewrite pass_lastNotifiedPct.
    apply (loop_preserves _ _ _ _
             (fun w0 => lastNotifiedPct w0 !! k = lastNotifiedPct w !! k)); [|done].
    intros w0 t0 b _ Hw0. destruct (Hscope b) as [Hb | Hb].
    + by rewrite step_out_of_scope.
    + rewrite step_other_key; [done|]. by rewrite Hb.
  - intros n Hn. rewrite pass_notifications.
    apply (loop_preserves _ _ _ _
             (fun w0 => notifications w0 !! n = notifications w !! n)); [|done].
    intros w0 t0 b _ Hw0. destruct (Hscope b) as [Hb | Hb].
    + by rewrite step_out_of_scope.
    + rewrite step_other_notification; [done|]. by rewrite Hb.
Qed.

(** X4.  A pass over the single account [id] leaves every other stored
    state and every other notification as it found them, and creates
    notifications under the id of that account only. *)
Theorem scoped_pass_leaves_other_accounts (extShortName : string)
    (perAccount : gmap string AccountConfig) (sumAccountBytes : string -> option number)
    (forceNotify : bool) (id : string) (accounts : list account) (w : world) :
  id <> "" ->
  let w' := checkAllAccounts extShortName perAccount sumAccountBytes forceNotify
              (Some id) accounts w in
  (forall k, k <> notify_state_key id -> lastNotifiedPct w' !! k = lastNotifiedPct w !! k) /\
  (forall n, n <> getNotificationId id -> notifications w' !! n = notifications w !! n) /\
  Forall (fun e => e.1 = getNotificationId id) (emitted w w').
Proof.
  intros Hid w'. subst w'.
  destruct (scoped_pass_frame extShortName perAccount sumAccountBytes forceNotify id
              accounts w Hid) as [H1 H2].
  split_and!; [done | done |].
  destruct (loop_created perAccount sumAccountBytes forceNotify (Some id) accounts w
              top_init) as (news & Hc & Hn).
  rewrite <- pass_created with (extShortName := extShortName) in Hc.
  rewrite (emitted_app _ _ _ Hc). eapply Forall_impl; [exact Hn|].
  intros e (b & _ & -> & Hs & _). f_equal. by apply in_scope_only.
Qed.

(** What is on display for a measured account after a pass over accounts
    with distinct ids. *)
Lemma pass_display (extShortName : string)
    (perAccount : gmap string AccountConfig) (sumAccountBytes : string -> option number)
    (forceNotify : bool) (onlyAccountId : option string)
    (accounts : list account) (w : world) (a : account) (used : number) :
  NoDup (acc_id <$> accounts) -> a ∈ accounts -> out_of_scope onlyAccountId a = false ->
  not_monitored (conf_of perAccount (acc_id a)) = false ->
  sumAccountBytes (acc_id a) = Some used ->
  let threshold := threshold_of (conf_of perAccount (acc_id a)) in
  let pctUsed := pct_of used (limit_of (conf_of perAccount (acc_id a))) in
  let lastPct := default (num 0) (lastNotifiedPct w !! notify_state_key (acc_id a)) in
  let w' := checkAllAccounts extShortName perAccount sumAccountBytes forceNotify
              onlyAccountId accounts w in
  notifications w' !! getNotificationId (acc_id a) =
    if num_lt pctUsed threshold then None
    else if (num_ge pctUsed threshold && num_lt lastPct threshold)
            || (forceNotify && num_ge pctUsed threshold)
         then Some (notification_of perAccount a used)
         else notifications w !! getNotificationId (acc_id a).
Proof.
  intros Hnd Ha Hs Hm Hu threshold pctUsed lastPct w'. subst w'.
  apply list_elem_of_split in Ha as (l1 & l2 & ->).
  pose proof (NoDup_ids_split extShortName sumAccountBytes _ _ _ Hnd) as Hids.
  rewrite pass_notifications, foldl_app. cbn [foldl].
  assert (forall b, b ∈ l1 ++ l2 ->
            getNotificationId (acc_id a) <> getNotificationId (acc_id b)) as Hn.
  { intros b Hb Heq. apply getNotificationId_inj in Heq. by apply (Hids b). }
  pose proof (loop_other_notification perAccount sumAccountBytes forceNotify onlyAccountId
                l1 w top_init (getNotificationId (acc_id a))) as H1.
  pose proof (loop_other_key perAccount sumAccountBytes forceNotify onlyAccountId
                l1 w top_init (notify_state_key (acc_id a))) as K1.
  destruct (foldl _ (w, top_init) l1) as [w1 t1]. simpl in H1, K1.
  rewrite (step_measured _ _ _ _ _ _ _ used) by done. cbn zeta.
  rewrite loop_other_notification by (intros b Hb; apply Hn, elem_of_app; auto).
  simpl. unfold announces. rewrite K1.
  2:{ intros b Hb Heq. apply notify_state_key_inj in Heq.
      apply (Hids b); [apply elem_of_app; auto | done]. }
  fold threshold pctUsed lastPct.
  assert (notifications w1 !! getNotificationId (acc_id a)
          = notifications w !! getNotificationId (acc_id a)) as Hw1
    by (apply H1; intros b Hb; apply Hn, elem_of_app; auto).
  destruct (num_lt pctUsed threshold) eqn:Hlt.
  - rewrite (num_lt_not_ge _ _ Hlt), andb_false_r. simpl. apply lookup_delete_eq.
  - destruct (_ || _); simpl; [apply lookup_insert_eq | done].
Qed.

(** X5.  What is on display for an account after a pass over accounts
    with distinct ids, when the account is in scope, monitored and
    measured: nothing when it is below its threshold, the notification
    with its current figures when the pass announces it, and otherwise
    (still at or above the threshold, not announced again) whatever was on
    display before. *)
Theorem notification_on_display (extShortName : string)
    (perAccount : gmap string AccountConfig) (sumAccountBytes : string -> option number)
    (forceNotify : bool) (onlyAccountId : option string)
    (accounts : list account) (w : world) (a : account) (used : number) :
  NoDup (acc_id <$> accounts) -> a ∈ accounts -> out_of_scope onlyAccountId a = false ->
  not_monitored (conf_of perAccount (acc_id a)) = false ->
  sumAccountBytes (acc_id a) = Some used ->
  let threshold := threshold_of (conf_of perAccount (acc_id a)) in
  let pctUsed := pct_of used (limit_of (conf_of perAccount (acc_id a))) in
  let lastPct := default (num 0) (lastNotifiedPct w !! notify_state_key (acc_id a)) in
  let w' := checkAllAccounts extShortName perAccount sumAccountBytes forceNotify
              onlyAccountId accounts w in
  notifications w' !! getNotificationId (acc_id a) =
    if num_lt pctUsed threshold then None
    else if (num_ge pctUsed threshold && num_lt lastPct threshold)
            || (forceNotify && num_ge pctUsed threshold)
         then Some (notification_of perAccount a used)
         else notifications w !! getNotificationId (acc_id a).
Proof.
  intros Hnd Ha Hs Hm Hu. by apply pass_display.
Qed.

(** ** Messages *)

(** The whole minutes of any number: a whole number that is not negative,
    or +Infinity for +Infinity. *)
(** A forced pass creates a notification for every account it measures at
    or above its threshold. *)
Lemma forced_pass_announces (extShortName : string)
    (perAccount : gmap string AccountConfig) (sumAccountBytes : string -> option number)
    (onlyAccountId : option string) (accounts : list account) (w : world)
    (a : account) (used : number) :
  a ∈ accounts -> over_threshold perAccount sumAccountBytes onlyAccountId a used ->
  (getNotificationId (acc_id a), notification_of perAccount a used)
  ∈ emitted w (checkAllAccounts extShortName perAccount sumAccountBytes true
                 onlyAccountId accounts w).
Proof.
  intros (l1 & l2 & ->)%list_elem_of_split (Hs & Hm & Hu & Hge).
  pose proof (pass_created extShortName perAccount sumAccountBytes true onlyAccountId
                (l1 ++ a :: l2) w) as Hc.
  rewrite foldl_app in Hc. cbn [foldl] in Hc.
  destruct (loop_created perAccount sumAccountBytes true onlyAccountId l1 w top_init)
    as (n1 & Hc1 & _).
  destruct (foldl _ (w, top_init) l1) as [w1 t1].
  pose proof (step_created_measured perAccount sumAccountBytes true onlyAccountId
                w1 t1 a used Hs Hm Hu) as Hc2.
  destruct (check_account _ _ _ _ (w1, t1) a) as [w2 t2].
  destruct (loop_created perAccount sumAccountBytes true onlyAccountId l2 w2 t2)
    as (n3 & Hc3 & _).
  cbn zeta in Hc2. unfold announces in Hc2. rewrite Hge, orb_true_r in Hc2.
  simpl in Hc1, Hc2. rewrite Hc3, Hc2, Hc1, <- !app_assoc in Hc.
  rewrite (emitted_app _ _ _ Hc). apply elem_of_app. right. apply list_elem_of_here.
Qed.

Lemma whole_minutes_cases n :
  (exists k, 0 <= k /\ whole_minutes n = num k) \/ (n = PInf /\ whole_minutes n = PInf).
Proof.
  destruct n as [| | |v].
  - left. by exists 0.
  - by right.
  - left. by exists 0.
  - left. exists (Z.max 0 (Qfloor v)). split; [lia | apply whole_minutes_Fin].
Qed.

Lemma schedule_whole_minutes k alarms :
  0 <= k ->
  scheduleChecksFromSettings (Some (JSnumber (num k))) alarms !! ALARM_NAME
  = if decide (k = 0) then None else Some (num k).
Proof.
  intros Hk. unfold scheduleChecksFromSettings.
  change (getGlobalIntervalMin (Some (JSnumber (num k)))) with (Fin (inject_Z k)).
  rewrite whole_minutes_Fin, Qfloor_Z, Math_max_num, Z.max_r by done.
  destruct (num_eq (num k) (num 0)) eqn:E.
  - apply num_eq_num in E. rewrite decide_True by done. apply lookup_delete_eq.
  - rewrite decide_False by (intros ->; by rewrite (proj2 (num_eq_num 0 0)) in E).
    rewrite lookup_insert_eq. do 2 f_equal.
    assert (k <> 0) by (intros ->; by rewrite (proj2 (num_eq_num 0 0)) in E). lia.
Qed.

Section BackgroundFacts.
Context (extShortName : string) (accounts : list account)
        (sumAccountBytes : string -> option number) (StringToNumber : string -> number).

Local Abbreviation handle := (onMessage extShortName accounts sumAccountBytes StringToNumber).

(** X6.  Saving the interval through the settings message, whatever value
    the message carries: the answer reports the value stored, which is a
    whole number of minutes that is not negative, or +Infinity; the
    settings and the world are not touched.  A whole number is what
    [getGlobalSettings] answers afterwards, and the quota alarm is armed
    with it as its period, or removed when it is 0.  +Infinity is
    answered and stored, but read back as the default of 360 minutes, with
    which the alarm is armed. *)
Theorem save_interval_round_trip (intervalMin : jsval) (s : addon) :
  let r := onMessage extShortName accounts sumAccountBytes StringToNumber
             (MsgSaveGlobalSettingsMinutes intervalMin) s in
  let s' := r.2 in
  let read := (onMessage extShortName accounts sumAccountBytes StringToNumber
                 MsgGetGlobalSettings s').1 in
  exists minutes,
    r.1 = RespOkInterval minutes /\ stored_interval s' = Some (JSnumber minutes) /\
    stored_perAccount s' = stored_perAccount s /\ seen s' = seen s /\
    ((exists k, 0 <= k /\ minutes = num k /\ read = RespGlobalSettings (num k) /\
                armed s' !! ALARM_NAME = if decide (k = 0) then None else Some (num k)) \/
     (minutes = PInf /\ read = RespGlobalSettings (num 360) /\
      armed s' !! ALARM_NAME = Some (num 360))).
Proof.
  cbn zeta. unfold onMessage, saveGlobalSettingsMinutes. simpl.
  exists (whole_minutes (Number_of StringToNumber intervalMin)). split_and!; try done.
  destruct (whole_minutes_cases (Number_of StringToNumber intervalMin))
    as [(k & Hk & ->) | [_ ->]].
  - left. exists k. split_and!; try done. by apply schedule_whole_minutes.
  - right. split_and!; try done.
    unfold scheduleChecksFromSettings.
    change (getGlobalIntervalMin (Some (JSnumber PInf))) with (num 360).
    assert (whole_minutes (num 360) = num 360) as -> by by vm_compute.
    rewrite Math_max_num. change (num_eq (num 360) (num 0)) with false. cbn iota.
    by rewrite lookup_insert_eq.
Qed.

End BackgroundFacts.

Section SnapshotFacts.
Context (perAccount : gmap string AccountConfig)
        (sumAccountBytes : string -> option number).

Local Abbreviation snapshot := (getAccountsUsageSnapshot perAccount sumAccountBytes).
Local Abbreviation row_of := (snapshot_of perAccount sumAccountBytes).

(** The loop of the snapshot pushes one entry for each account, in order,
    and touches nothing of the world but the console. *)
Lemma snapshot_rows l w :
  (snapshot l w).1 = row_of <$> l /\ same_but_console (snapshot l w).2 w.
Proof.
  unfold getAccountsUsageSnapshot.
  cut (forall out w0, same_but_console w0 w ->
         (foldl (fun '(out, w) acc =>
                   (out ++ [row_of acc],
                    if snapshot_fails perAccount sumAccountBytes acc
                    then console_error ("Summation failed for account " +:+ acc_id acc) w
                    else w)) (out, w0) l).1 = out ++ (row_of <$> l) /\
         same_but_console
           (foldl (fun '(out, w) acc =>
                   (out ++ [row_of acc],
                    if snapshot_fails perAccount sumAccountBytes acc
                    then console_error ("Summation failed for account " +:+ acc_id acc) w
                    else w)) (out, w0) l).2 w).
  { intros H. apply (H [] w). by repeat split. }
  induction l as [|a l IH]; intros out w0 Hw0; simpl.
  - by rewrite app_nil_r.
  - destruct (IH (out ++ [row_of a])
                (if snapshot_fails perAccount sumAccountBytes a
                 then console_error ("Summation failed for account " +:+ acc_id a) w0
                 else w0)) as [-> H2].
    + by destruct (snapshot_fails _ _ _).
    + by rewrite <- app_assoc.
Qed.

(** The percentage of nothing used is 0. *)
Lemma pct_of_zero limit :
  num_gt limit (num 0) = true -> num_eq (pct_of (num 0) limit) (num 0) = true.
Proof.
  destruct limit as [| | |y]; try done. intros Hy.
  assert (0 < y)%Q as Hy' by (revert Hy; num_solve).
  destruct (Qeq_bool y 0) eqn:E; [apply Qeq_bool_iff in E; lra|].
  unfold pct_of, num. cbn [num_div]. rewrite E.
  rewrite (round_double_zero (inject_Z 0 / y)) by (unfold Qdiv; apply Qmult_0_l).
  cbn [num_mul]. by rewrite (round_double_zero (0 * inject_Z 100)).
Qed.

(** X7.  The usage snapshot has one entry for every account of the host,
    in the order of the host, active or not; taking it changes nothing but
    the console.  An account whose limit is not above zero is not measured
    (its entry is the same whatever the aggregator would answer) and shows
    0 bytes and 0 %; an account that cannot be measured is kept, and shows
    0 bytes and 0 % as well. *)
Theorem usage_snapshot_entries (accounts : list account) (w : world) :
  let r := getAccountsUsageSnapshot perAccount sumAccountBytes accounts w in
  snap_id <$> r.1 = acc_id <$> accounts /\
  same_but_console r.2 w /\
  forall i a, accounts !! i = Some a ->
    r.1 !! i = Some (snapshot_of perAccount sumAccountBytes a) /\
    (num_gt (limit_of (conf_of perAccount (acc_id a))) (num 0) = false ->
     forall sumAccountBytes' : string -> option number,
       snapshot_of perAccount sumAccountBytes' a = snapshot_of perAccount sumAccountBytes a /\
       snap_usedBytes (snapshot_of perAccount sumAccountBytes a) = num 0 /\
       snap_pctUsed (snapshot_of perAccount sumAccountBytes a) = num 0) /\
    (sumAccountBytes (acc_id a) = None ->
     snap_usedBytes (snapshot_of perAccount sumAccountBytes a) = num 0 /\
     num_eq (snap_pctUsed (snapshot_of perAccount sumAccountBytes a)) (num 0) = true).
Proof.
  cbn zeta. destruct (snapshot_rows accounts w) as [-> Hw]. split_and!; [|done|].
  - rewrite <- list_fmap_compose. by apply list_fmap_ext.
  - intros i a Hi. split_and!.
    + by rewrite list_lookup_fmap, Hi.
    + intros Hl u'. unfold snapshot_of. by rewrite Hl.
    + intros Hu. unfold snapshot_of. rewrite Hu. simpl.
      destruct (num_gt _ _) eqn:Hl; [|done]. split; [done|]. by apply pct_of_zero.
Qed.

End SnapshotFacts.

(** When usage is a byte count, an account at or above its threshold
    brings the loop variable of the badge to 0 or more. *)
Lemma loop_top_some (perAccount : gmap string AccountConfig)
    (sumAccountBytes : string -> option number) (forceNotify : bool)
    (onlyAccountId : option string) (l : list account) (w : world) :
  (forall a used, a ∈ l -> sumAccountBytes (acc_id a) = Some used ->
                  num_le (num 0) used = true) ->
  (exists a used, a ∈ l /\ over_threshold perAccount sumAccountBytes onlyAccountId a used) ->
  num_ge (topBadgePercent
            (foldl (check_account perAccount sumAccountBytes forceNotify onlyAccountId)
                   (w, top_init) l).2) (num 0) = true.
Proof.
  intros Hnn (a & used & Ha & Hover).
  destruct (loop_top perAccount sumAccountBytes forceNotify onlyAccountId l w top_init eq_refl)
    as (HN & _ & H3 & _). cbn zeta in *.
  set (t' := (foldl _ _ _).2) in *. clearbody t'.
  assert (num_le (num 0) (Math_floor (pct_of used (limit_of (conf_of perAccount (acc_id a)))))
          = true) as H0.
  { destruct Hover as (_ & Hm & Hu & Hge).
    apply not_monitored_false in Hm as [_ Hlim].
    destruct (pct_of_nonneg used _ (Hnn a used Ha Hu) Hlim) as [HNaN | Hp].
    - apply num_ge_not_NaN in Hge as [? _]. congruence.
    - change (num 0) with (Math_floor (num 0)). revert Hp.
      destruct (pct_of _ _) as [| | |q]; try done. intros Hp.
      assert (0 <= q)%Q as Hq by (revert Hp; num_solve).
      apply Qfloor_resp_le in Hq. change (Qfloor 0) with 0 in Hq.
      change (Math_floor (num 0)) with (num 0). change (Math_floor (Fin q)) with (num (Qfloor q)).
      by apply (num_ge_num (Qfloor q) 0). }
  unfold num_ge. eapply num_le_trans; [exact H0|]. by apply (H3 a used).
Qed.

Lemma num_ge_not_lt' a b : num_ge a b = true -> num_lt a b = false.
Proof. destruct a, b; num_solve. Qed.

Lemma percent_text_not_empty (s : string) : s +:+ "%" <> ""%string.
Proof. by destruct s. Qed.


Section BackgroundFlows.
Context (extShortName : string) (accounts : list account)
        (sumAccountBytes : string -> option number) (StringToNumber : string -> number).

(** X8.  Saving settings through the [saveAccountsConfig] message replaces
    the entry of every account the payload names, as a whole, and keeps
    the entries of the others; [getAccountsState] then reports, for the
    accounts of the host, the settings of the payload.  Nothing else is
    touched (no check is run); saving the same payload again, or one
    without entries, changes nothing. *)
Theorem saved_settings_are_reported (payload : gmap string AccountConfig) (s : addon) :
  let save := onMessage extShortName accounts sumAccountBytes StringToNumber
                (MsgSaveAccountsConfig (Some payload)) in
  let s' := (save s).2 in
  (forall id, conf_of (stored_perAccount s') id
              = default (conf_of (stored_perAccount s) id) (payload !! id)) /\
  (onMessage extShortName accounts sumAccountBytes StringToNumber MsgGetAccountsState s').1
  = RespAccountsState
      ((fun a =>
          let c := default (conf_of (stored_perAccount s) (acc_id a)) (payload !! acc_id a) in
          {| state_id := acc_id a; state_name := acc_name a; state_active := active_of c;
             state_limitBytes := limit_of c; state_thresholdPct := threshold_of c |})
         <$> accounts) /\
  (stored_interval s' = stored_interval s /\ armed s' = armed s /\ seen s' = seen s) /\
  (save s').2 = s' /\
  (payload = ∅ -> s' = s).
Proof.
  cbn zeta. simpl.
  assert (forall id, conf_of (payload ∪ stored_perAccount s) id
                     = default (conf_of (stored_perAccount s) id) (payload !! id)) as Hconf.
  { intros id. unfold conf_of. rewrite lookup_union.
    destruct (payload !! id), (stored_perAccount s !! id); done. }
  split_and!; try done.
  - unfold getAccountsState. f_equal. apply list_fmap_ext. intros i a _.
    by rewrite Hconf.
  - f_equal. by rewrite (assoc (∪)), (idemp (∪)).
  - intros ->. destruct s. simpl. by rewrite (left_id ∅ (∪)).
Qed.

(** X9.  The Update button for the row of an account of the host whose
    id is not empty (ids being distinct): the settings of the row are
    stored; when they switch
    the account off or leave it without a limit, its notification is taken
    down, its stored state is 0 and the badge is cleared; when the account
    is monitored and measured, its notification is taken down if it is
    below the new threshold and shows the new figures if it is at or above
    it, and the stored state is its rounded percentage; the other accounts
    keep their stored state and their notifications. *)
Theorem update_button_outcome (a : account) (c : AccountConfig) (s : addon) :
  NoDup (acc_id <$> accounts) -> a ∈ accounts -> acc_id a <> "" ->
  let s' := update_account extShortName accounts sumAccountBytes StringToNumber
              (acc_id a) c s in
  let shown := notifications (seen s') !! getNotificationId (acc_id a) in
  let state := lastNotifiedPct (seen s') !! notify_state_key (acc_id a) in
  conf_of (stored_perAccount s') (acc_id a) = c /\
  (not_monitored c = true ->
   shown = None /\ state = Some (num 0) /\ badge_text (badge (seen s')) = ""%string) /\
  (not_monitored c = false ->
   forall used, sumAccountBytes (acc_id a) = Some used ->
     let pctUsed := pct_of used (limit_of c) in
     state = Some (store_pct pctUsed) /\
     (num_lt pctUsed (threshold_of c) = true ->
      shown = None /\ badge_text (badge (seen s')) = ""%string) /\
     (num_ge pctUsed (threshold_of c) = true ->
      shown = Some {| n_account := display_name a; n_used := used; n_limit := limit_of c;
                      n_pctUsed := pctUsed; n_threshold := threshold_of c |})) /\
  (forall id, id <> acc_id a ->
     notifications (seen s') !! getNotificationId id
       = notifications (seen s) !! getNotificationId id /\
     lastNotifiedPct (seen s') !! notify_state_key id
       = lastNotifiedPct (seen s) !! notify_state_key id).
Proof.
  intros Hnd Ha Hid s' shown state. subst s' shown state.
  unfold update_account. simpl. unfold str_or_null. rewrite decide_False by done.
  set (P := {[acc_id a := c]} ∪ stored_perAccount s).
  assert (conf_of P (acc_id a) = c) as Hc.
  { unfold conf_of, P. by rewrite lookup_union, lookup_singleton_eq, union_Some_l. }
  assert (out_of_scope (Some (acc_id a)) a = false) as Hs.
  { unfold out_of_scope. rewrite (bool_decide_eq_true_2 (acc_id a = acc_id a)) by done.
    apply andb_false_r. }
  assert (forall b used,
            over_threshold P sumAccountBytes (Some (acc_id a)) b used ->
            not_monitored c = false /\ sumAccountBytes (acc_id a) = Some used /\
            num_ge (pct_of used (limit_of c)) (threshold_of c) = true) as Hover.
  { intros b used (Hb & Hm & Hu & Hge). apply in_scope_only in Hb; [|done].
    rewrite Hb, Hc in *. done. }
  assert (forall b, acc_id b = acc_id a ->
            out_of_scope (Some (acc_id a)) b = false /\ conf_of P (acc_id b) = c) as Hsame.
  { intros b Hb. split; [|by rewrite Hb].
    revert Hs. unfold out_of_scope. by rewrite Hb. }
  split_and!; [done | | |].
  - intros Hm. split_and!.
    + rewrite pass_notifications.
      apply (loop_establishes _ _ _ _
               (fun w => notifications w !! getNotificationId (acc_id a) = None) a); [done|..].
      * intros w0 t0. rewrite step_not_monitored by (by rewrite ?Hc). simpl.
        apply lookup_delete_eq.
      * intros w0 t0 b _ Hw0. destruct (decide (acc_id b = acc_id a)) as [Hb | Hb].
        -- destruct (Hsame b Hb) as [Hsb Hcb].
           rewrite step_not_monitored by (by rewrite ?Hcb). simpl.
           rewrite Hb. apply lookup_delete_eq.
        -- rewrite step_other_notification; [done|].
           intros Hn. by apply getNotificationId_inj in Hn.
    + rewrite pass_lastNotifiedPct.
      apply (loop_establishes _ _ _ _
               (fun w => lastNotifiedPct w !! notify_state_key (acc_id a) = Some (num 0)) a);
        [done|..].
      * intros w0 t0. rewrite step_not_monitored by (by rewrite ?Hc). simpl.
        apply lookup_insert_eq.
      * intros w0 t0 b _ Hw0. destruct (decide (acc_id b = acc_id a)) as [Hb | Hb].
        -- destruct (Hsame b Hb) as [Hsb Hcb].
           rewrite step_not_monitored by (by rewrite ?Hcb). simpl.
           rewrite Hb. apply lookup_insert_eq.
        -- rewrite step_other_key; [done|].
           intros Hn. by apply notify_state_key_inj in Hn.
    + destruct (pass_badge_shown extShortName P sumAccountBytes true (Some (acc_id a))
                  accounts (seen s)) as [-> _].
      rewrite loop_top_none; [done|].
      intros b used _ Ho. apply Hover in Ho as (Hm' & _). congruence.
  - intros Hm used Hu. set (pctUsed := pct_of used (limit_of c)).
    assert (not_monitored (conf_of P (acc_id a)) = false) as Hm' by by rewrite Hc.
    pose proof (pass_display extShortName P sumAccountBytes true (Some (acc_id a))
                  accounts (seen s) a used Hnd Ha Hs Hm' Hu) as Hd.
    cbn zeta in Hd. rewrite Hc in Hd. fold pctUsed in Hd. simpl in Hd.
    split_and!.
    + rewrite pass_lastNotifiedPct.
      pose proof (loop_settles P sumAccountBytes true (Some (acc_id a)) accounts (seen s)
                    top_init a Ha Hs Hm' used Hu) as Hst.
      by rewrite Hc in Hst.
    + intros Hlt. rewrite Hlt in Hd. split; [done|].
      destruct (pass_badge_shown extShortName P sumAccountBytes true (Some (acc_id a))
                  accounts (seen s)) as [-> _].
      rewrite loop_top_none; [done|].
      intros b used' _ Ho. apply Hover in Ho as (_ & Hu' & Hge).
      assert (used' = used) as -> by congruence.
      apply num_lt_not_ge in Hlt. fold pctUsed in Hge. congruence.
    + intros Hge. rewrite (num_ge_not_lt' _ _ Hge), Hge, orb_true_r in Hd.
      rewrite Hd. unfold notification_of. by rewrite Hc.
  - intros id Hne.
    destruct (scoped_pass_frame extShortName P sumAccountBytes true (acc_id a) accounts
                (seen s) Hid) as [H1 H2].
    split.
    + apply H2. intros Hn. by apply getNotificationId_inj in Hn.
    + apply H1. intros Hn. by apply notify_state_key_inj in Hn.
Qed.

(** X10.  A tick of the quota alarm runs a forced check of all accounts
    and touches neither the settings nor the alarms.  After it, a
    monitored and measured account of the host (ids being distinct) that
    is below its threshold has no notification on display; one that is at
    or above its threshold has been announced again, and the notification
    on display shows its current figures.  An alarm of another name is
    ignored. *)
Theorem alarm_tick_renews_alerts (a : account) (used : number) (s : addon) :
  NoDup (acc_id <$> accounts) -> a ∈ accounts ->
  not_monitored (conf_of (stored_perAccount s) (acc_id a)) = false ->
  sumAccountBytes (acc_id a) = Some used ->
  let s' := onAlarm extShortName accounts sumAccountBytes "quota-check" s in
  let c := conf_of (stored_perAccount s) (acc_id a) in
  let pctUsed := pct_of used (limit_of c) in
  let shown := notifications (seen s') !! getNotificationId (acc_id a) in
  let n := {| n_account := display_name a; n_used := used; n_limit := limit_of c;
              n_pctUsed := pctUsed; n_threshold := threshold_of c |} in
  (stored_perAccount s' = stored_perAccount s /\ stored_interval s' = stored_interval s /\
   armed s' = armed s) /\
  (num_lt pctUsed (threshold_of c) = true -> shown = None) /\
  (num_ge pctUsed (threshold_of c) = true ->
   shown = Some n /\ (getNotificationId (acc_id a), n) ∈ emitted (seen s) (seen s')) /\
  (forall name, name <> "quota-check"%string ->
                onAlarm extShortName accounts sumAccountBytes name s = s).
Proof.
  intros Hnd Ha Hm Hu. cbn zeta. unfold onAlarm. rewrite decide_True by done. simpl.
  pose proof (pass_display extShortName (stored_perAccount s) sumAccountBytes true None
                accounts (seen s) a used Hnd Ha eq_refl Hm Hu) as Hd.
  cbn zeta in Hd. simpl in Hd. split_and!; [done.. | | |].
  - intros Hlt. by rewrite Hlt in Hd.
  - intros Hge. rewrite (num_ge_not_lt' _ _ Hge), Hge, orb_true_r in Hd. split; [done|].
    by apply (forced_pass_announces extShortName (stored_perAccount s) sumAccountBytes None
                accounts (seen s) a used).
  - intros name Hname. by rewrite decide_False.
Qed.

End BackgroundFlows.

(** ** The sum over the folders of an account *)

(** [browser.messages.list(folder)] for the folder. *)
Definition first_listing (f : folder) : option page :=
  match f with Folder first _ _ => first end.

(** The sub-folders [walk] descends into: the array on the folder object
    when it has entries, what [browser.folders.getSubFolders] answers
    otherwise ([None] when that call throws). *)
Definition children_of (f : folder) : option (list folder) :=
  match f with
  | Folder _ subFolders fetched =>
      match subFolders with _ :: _ => Some subFolders | [] => fetched end
  end.

(** The folders of a tree in the order [walk] reaches them: a folder, then
    the trees of its sub-folders one after the other. *)
Fixpoint folders_of (f : folder) : list folder :=
  match f with
  | Folder _ subFolders fetched =>
      f :: match subFolders with
           | _ :: _ => concat (map folders_of subFolders)
           | [] =>
               match fetched with
               | Some children => concat (map folders_of children)
               | None => []
               end
           end
  end.

(** Every numeric size on the page is 0 or more. *)
Definition sizes_not_negative (p : page) : Prop :=
  Forall (fun m => forall n, msg_size m = JSnumber n -> num_le (num 0) n = true)
         (page_messages p).

Lemma folder_induction (P : folder -> Prop) :
  (forall first subFolders fetched,
     Forall P subFolders ->
     (forall children, fetched = Some children -> Forall P children) ->
     P (Folder first subFolders fetched)) ->
  forall f, P f.
Proof.
  intros H. fix IH 1. intros [first subFolders fetched]. apply H.
  - induction subFolders as [|c cs IHcs]; constructor; [apply IH | apply IHcs].
  - destruct fetched as [children|]; [|done]. intros ? [= <-].
    induction children as [|c cs IHcs]; constructor; [apply IH | apply IHcs].
Qed.

Lemma num_add_not_negative a b :
  num_le (num 0) a = true -> num_le (num 0) b = true -> num_le (num 0) (num_add a b) = true.
Proof. destruct a, b; num_solve. Qed.

Lemma sum_not_negative total sums :
  num_le (num 0) total = true -> Forall (fun n => num_le (num 0) n = true) sums ->
  num_le (num 0) (foldl num_add total sums) = true.
Proof.
  intros Ht Hs. revert total Ht. induction Hs as [|n sums Hn _ IH]; intros total Ht; [done|].
  simpl. by apply IH, num_add_not_negative.
Qed.

Lemma numeric_sizes_not_negative p :
  sizes_not_negative p -> Forall (fun n => num_le (num 0) n = true) (numeric_sizes (page_messages p)).
Proof.
  unfold sizes_not_negative, numeric_sizes. generalize (page_messages p). intros msgs.
  induction 1 as [|m msgs Hm _ IH]; simpl; [constructor|].
  destruct (msg_size m) as [| | |n|] eqn:E; try done. constructor; [by apply Hm | done].
Qed.

Section AccountSumFacts.
Context (continueList : string -> option page).

(** The loop over the sub-folders inside [walk]. *)
Fixpoint walk_children (fuel : nat) (children : list folder) (total : number)
  : outcome number :=
  match children with
  | [] => Returned total
  | child :: children =>
      match walk continueList fuel child total with
      | Returned total => walk_children fuel children total
      | Thrown => Thrown
      | OutOfFuel => OutOfFuel
      end
  end.

Lemma walk_unfold fuel first subFolders fetched total :
  walk continueList fuel (Folder first subFolders fetched) total =
  match sumFolderMessagesSize continueList fuel first with
  | Returned n =>
      match children_of (Folder first subFolders fetched) with
      | Some children => walk_children fuel children (num_add total n)
      | None => Thrown
      end
  | Thrown => Thrown
  | OutOfFuel => OutOfFuel
  end.
Proof.
  assert (forall children t,
            (fix walk_children (children : list folder) (total : number) : outcome number :=
               match children with
               | [] => Returned total
               | child :: children =>
                   match walk continueList fuel child total with
                   | Returned total => walk_children children total
                   | Thrown => Thrown
                   | OutOfFuel => OutOfFuel
                   end
               end) children t = walk_children fuel children t) as Hloop.
  { induction children as [|c cs IH]; intros t; [done|]. simpl.
    destruct (walk continueList fuel c t); [apply IH | done..]. }
  cbn [walk children_of]. destruct (sumFolderMessagesSize _ _ _) as [n| |]; [|done..].
  destruct subFolders as [|c cs]; [destruct fetched as [children|]|];
    [apply Hloop | done |].
  cbn [walk_children]. destruct (walk continueList fuel c _); [apply Hloop | done..].
Qed.

(** The folder is summed, with [n] bytes, and its sub-folders are at hand. *)
Definition summed (fuel : nat) (f : folder) (n : number) : Prop :=
  sumFolderMessagesSize continueList fuel (first_listing f) = Returned n /\
  children_of f <> None.

Lemma walk_sums fuel f :
  forall total r,
    walk continueList fuel f total = Returned r <->
    exists sums, Forall2 (summed fuel) (folders_of f) sums /\ r = foldl num_add total sums.
Proof.
  induction f as [first subFolders fetched IHsub IHfetched] using folder_induction.
  assert (forall children, Forall (fun f => forall total r,
              walk continueList fuel f total = Returned r <->
              exists sums, Forall2 (summed fuel) (folders_of f) sums /\
                           r = foldl num_add total sums) children ->
            forall total r,
              walk_children fuel children total = Returned r <->
              exists sums, Forall2 (summed fuel) (concat (map folders_of children)) sums /\
                           r = foldl num_add total sums) as Hloop.
  { intros children Hall. induction Hall as [|c cs Hc _ IH]; intros total r; simpl.
    - split.
      + intros [= <-]. exists []. by split; [constructor|].
      + intros (sums & Hs & ->). by inversion Hs.
    - split.
      + destruct (walk continueList fuel c total) as [t| |] eqn:E; [|done..].
        apply Hc in E as (sums1 & H1 & ->). intros (sums2 & H2 & ->)%IH.
        exists (sums1 ++ sums2). split; [by apply Forall2_app | by rewrite foldl_app].
      + intros (sums & (sums1 & sums2 & H1 & H2 & ->)%Forall2_app_inv_l & ->).
        rewrite foldl_app.
        assert (walk continueList fuel c total = Returned (foldl num_add total sums1)) as ->.
        { apply Hc. by exists sums1. }
        apply IH. by exists sums2. }
  assert (forall total r,
            match children_of (Folder first subFolders fetched) with
            | Some children => walk_children fuel children total
            | None => Thrown
            end = Returned r <->
            children_of (Folder first subFolders fetched) <> None /\
            exists sums,
              Forall2 (summed fuel) (tail (folders_of (Folder first subFolders fetched))) sums /\
              r = foldl num_add total sums) as Hrest.
  { intros total r. simpl. destruct subFolders as [|c cs].
    - destruct fetched as [children|].
      + rewrite (Hloop children (IHfetched children eq_refl)).
        split; [by intros H | by intros [_ H]].
      + split; [done | by intros [H _]].
    - rewrite (Hloop (c :: cs) IHsub). split; [by intros H | by intros [_ H]]. }
  intros total r. rewrite walk_unfold. split.
  - destruct (sumFolderMessagesSize _ _ _) as [n| |] eqn:E; [|done..].
    intros (Hc & sums & Hs & ->)%Hrest. exists (n :: sums). split; [|done].
    change (folders_of (Folder first subFolders fetched))
      with (Folder first subFolders fetched
              :: tail (folders_of (Folder first subFolders fetched))).
    by constructor.
  - intros (sums & Hs & ->).
    change (folders_of (Folder first subFolders fetched))
      with (Folder first subFolders fetched
              :: tail (folders_of (Folder first subFolders fetched))) in Hs.
    apply Forall2_cons_inv_l in Hs as (n & sums' & [Hn Hc] & Hs & ->).
    simpl in Hn. rewrite Hn. apply Hrest. split; [done|]. by exists sums'.
Qed.

(** X11.  [sumAccountBytes] returns for an account with a root folder
    exactly when every folder of the tree can be summed and has its
    sub-folders at hand, and what it returns is the folder sums added up,
    from 0, in the order the folders are reached; a single folder that
    cannot be listed, or whose sub-folders cannot be fetched, leaves the
    account without a total. *)
Theorem account_sum_adds_folder_sums (fuel : nat) (rootFolder : folder) (r : number) :
  (sumAccountBytes_of continueList fuel (Some (Some rootFolder)) = Returned r <->
   exists sums, Forall2 (summed fuel) (folders_of rootFolder) sums /\ r = sum_numbers sums) /\
  (forall f, f ∈ folders_of rootFolder ->
     first_listing f = None \/ children_of f = None ->
     sumAccountBytes_of continueList fuel (Some (Some rootFolder)) <> Returned r).
Proof.
  split; [apply walk_sums|].
  intros f [i Hi]%list_elem_of_lookup Hbad (sums & Hs & _)%walk_sums.
  destruct (Forall2_lookup_l _ _ _ _ _ Hs Hi) as (n & _ & Hn & Hc).
  destruct Hbad as [Hbad | Hbad]; [by rewrite Hbad in Hn | done].
Qed.

(** X12.  When no message of the account reports a negative size, on any
    page of any folder, the bytes [sumAccountBytes] returns are 0 or more
    (and not NaN). *)
Theorem usage_is_never_negative (fuel : nat) (account : option (option folder))
    (used : number) :
  (forall id p, continueList id = Some p -> sizes_not_negative p) ->
  (forall rootFolder f p, account = Some (Some rootFolder) -> f ∈ folders_of rootFolder ->
                          first_listing f = Some p -> sizes_not_negative p) ->
  sumAccountBytes_of continueList fuel account = Returned used ->
  num_le (num 0) used = true.
Proof.
  intros Hpages Hfirst.
  assert (forall fuel p total r,
            sizes_not_negative p -> num_le (num 0) total = true ->
            sum_pages continueList fuel total p = Returned r ->
            num_le (num 0) r = true) as Hsum.
  { clear fuel Hfirst. intros fuel. induction fuel as [|fuel IH]; intros p total r Hp Ht.
    - simpl. rewrite (sum_page_numeric total p).
      assert (num_le (num 0) (foldl num_add total (numeric_sizes (page_messages p))) = true)
        as H0 by (apply sum_not_negative; [done | by apply numeric_sizes_not_negative]).
      destruct (page_id p) as [id|]; [destruct (decide (id = ""))|]; congruence.
    - simpl. rewrite (sum_page_numeric total p).
      assert (num_le (num 0) (foldl num_add total (numeric_sizes (page_messages p))) = true)
        as H0 by (apply sum_not_negative; [done | by apply numeric_sizes_not_negative]).
      destruct (page_id p) as [id|]; [destruct (decide (id = ""))|]; [congruence | | congruence].
      destruct (continueList id) as [next|] eqn:E; [|done].
      apply IH; [by apply (Hpages id) | done]. }
  destruct account as [[rootFolder|]|]; simpl; [| by intros [= <-] | done].
  intros (sums & Hs & ->)%walk_sums. apply sum_not_negative; [done|].
  apply Forall_lookup_2. intros i n Hn.
  destruct (Forall2_lookup_r _ _ _ _ _ Hs Hn) as (f & Hf & Hsummed & _).
  unfold sumFolderMessagesSize in Hsummed.
  destruct (first_listing f) as [p|] eqn:Hp; [|done].
  apply (Hsum fuel p (num 0) n); [|done..].
  apply (Hfirst rootFolder f p eq_refl); [|done]. by apply list_elem_of_lookup_2 in Hf.
Qed.

End AccountSumFacts.

(** ** The options page against the background script *)

(** The values the interval selector offers. *)
Definition interval_options : list string := interval_minutes.*1.

Lemma num_or_same a : num_or a a = a.
Proof. unfold num_or. by destruct (truthy a). Qed.

Lemma truthy_above a : num_gt a (num 0) = true -> truthy a = true.
Proof.
  destruct a as [| | |q]; try done. simpl. intros Hq.
  destruct (Qeq_bool q 0) eqn:E; [|done]. apply Qeq_bool_iff in E. revert Hq. num_solve.
Qed.

Lemma falsy_below a thr :
  truthy a = false -> num_gt thr (num 0) = true -> num_ge a thr = false.
Proof.
  destruct a as [| | |q]; try done; destruct thr as [| | |t]; try done.
  simpl. intros Hq%negb_false_iff%Qeq_bool_iff. revert Hq. num_solve.
Qed.

Lemma zero_below a thr :
  num_eq a (num 0) = true -> num_gt thr (num 0) = true -> num_ge a thr = false.
Proof. destruct a as [| | |q]; try done; destruct thr as [| | |t]; try done; num_solve. Qed.

Section OptionsFacts.
Context (perAccount : gmap string AccountConfig)
        (sumAccountBytes : string -> option number).

(** The row of the account as the page paints it after loading: the
    checkbox shows whether the account is active, the usage columns are
    painted from the entry of the snapshot. *)
Definition painted_row (a : account) : option usage_columns :=
  let status := snapshot_of perAccount sumAccountBytes a in
  paintUsageColumns (snap_active status) status.

(** The row is set in red. *)
Definition highlighted (a : account) : bool :=
  match painted_row a with Some c => col_alert c | None => false end.

Lemma highlighted_over a :
  num_gt (threshold_of (conf_of perAccount (acc_id a))) (num 0) = true ->
  highlighted a = true <->
  exists used, over_threshold perAccount sumAccountBytes None a used.
Proof.
  intros Hthr. unfold highlighted, painted_row, paintUsageColumns, over_threshold, snapshot_of.
  cbn [snap_active snap_limitBytes snap_usedBytes snap_pctUsed snap_thresholdPct].
  set (conf := conf_of perAccount (acc_id a)) in *.
  assert (num_or (limit_of conf) (num 0) = limit_of conf) as ->.
  { unfold limit_of. destruct (conf_limitBytes conf) as [n|]; [|done].
    destruct (truthy n) eqn:E; [|done]. unfold num_or. by rewrite E. }
  assert (num_or (threshold_of conf) MFA_DEFAULT_THRESHOLD_PCT = threshold_of conf) as ->.
  { unfold num_or. by rewrite (truthy_above _ Hthr). }
  setoid_rewrite not_monitored_false. change (out_of_scope None a) with false.
  destruct (active_of conf); simpl; [|split; [done | by intros (? & _ & [? _] & _)]].
  destruct (num_gt (limit_of conf) (num 0)) eqn:Hl; simpl;
    [|split; [done | by intros (? & _ & [_ ?] & _)]].
  destruct (sumAccountBytes (acc_id a)) as [used|]; simpl.
  - set (pct := pct_of used (limit_of conf)).
    assert (num_ge (num_or pct (pct_of (num_or used (num 0)) (limit_of conf)))
                   (threshold_of conf) = num_ge pct (threshold_of conf)) as ->.
    { unfold num_or at 1. destruct (truthy pct) eqn:Ep; [done|].
      rewrite (falsy_below pct _ Ep Hthr). unfold num_or.
      destruct (truthy used) eqn:Eu; [by apply falsy_below|].
      apply zero_below; [|done]. by apply pct_of_zero. }
    split.
    + intros H. exists used. by split_and!.
    + by intros (used' & _ & _ & [= <-] & H).
  - split; [|by intros (? & _ & _ & ? & _)].
    assert (num_ge (num_or (pct_of (num 0) (limit_of conf))
                      (pct_of (num_or (num 0) (num 0)) (limit_of conf)))
              (threshold_of conf) = false) as ->; [|done].
    change (num_or (num 0) (num 0)) with (num 0). rewrite num_or_same.
    apply zero_below; [|done]. by apply pct_of_zero.
Qed.
End OptionsFacts.

(** X13.  Usage being a byte count and thresholds being above zero: after
    a pass over all accounts the badge is empty exactly when the options
    page, painting its rows from the usage snapshot, sets no row in red. *)
Theorem badge_agrees_with_options_page (extShortName : string)
    (perAccount : gmap string AccountConfig) (sumAccountBytes : string -> option number)
    (forceNotify : bool) (accounts : list account) (w : world) :
  (forall a used, a ∈ accounts -> sumAccountBytes (acc_id a) = Some used ->
                  num_le (num 0) used = true) ->
  (forall a, a ∈ accounts ->
             num_gt (threshold_of (conf_of perAccount (acc_id a))) (num 0) = true) ->
  let b := badge (checkAllAccounts extShortName perAccount sumAccountBytes forceNotify
                    None accounts w) in
  badge_text b = ""%string <->
  (forall a, a ∈ accounts -> highlighted perAccount sumAccountBytes a = false).
Proof.
  intros Hnn Hthr b. subst b.
  destruct (pass_badge_shown extShortName perAccount sumAccountBytes forceNotify None
              accounts w) as [-> _].
  split.
  - intros Htext a Ha.
    destruct (highlighted perAccount sumAccountBytes a) eqn:Hh; [exfalso | done].
    apply highlighted_over in Hh as [used Ho]; [|by apply Hthr].
    assert (num_ge (topBadgePercent
              (foldl (check_account perAccount sumAccountBytes forceNotify None)
                     (w, top_init) accounts).2) (num 0) = true) as Hge.
    { apply loop_top_some; [done|]. by exists a, used. }
    unfold shown_text in Htext. rewrite Hge in Htext.
    by apply percent_text_not_empty in Htext.
  - intros Hnone. rewrite loop_top_none; [done|].
    intros a used Ha Ho.
    assert (highlighted perAccount sumAccountBytes a = true) as Hh.
    { apply highlighted_over; [by apply Hthr | by exists used]. }
    by rewrite Hnone in Hh.
Qed.

Lemma whole_minutes_num k : 0 <= k -> whole_minutes (num k) = num k.
Proof. intros Hk. unfold num. by rewrite whole_minutes_Fin, Qfloor_Z, Z.max_r. Qed.

Section IntervalSelector.
Context (extShortName : string) (accounts : list account)
        (sumAccountBytes : string -> option number) (StringToNumber : string -> number).

(** X14.  Choosing an option of the interval selector: the minutes it
    stands for are stored, the quota alarm is armed with them as its
    period (removed for "off"), and a page loaded afterwards shows the
    same option. *)
Theorem chosen_interval_round_trip (val : string) (s : addon) :
  val ∈ interval_options ->
  exists m,
    intervalSelectToMinutes val = Some (num m) /\
    let s' := (onMessage extShortName accounts sumAccountBytes StringToNumber
                 (MsgSaveGlobalSettingsMinutes (JSnumber (num m))) s).2 in
    stored_interval s' = Some (JSnumber (num m)) /\
    armed s' !! ALARM_NAME = (if decide (m = 0) then None else Some (num m)) /\
    exists n,
      (onMessage extShortName accounts sumAccountBytes StringToNumber
         MsgGetGlobalSettings s').1 = RespGlobalSettings n /\
      minutesToIntervalSelect StringToNumber (JSnumber n) = val.
Proof.
  intros Hval.
  assert (exists m, 0 <= m /\ intervalSelectToMinutes val = Some (num m) /\
                    minutesToIntervalSelect StringToNumber (JSnumber (num m)) = val)
    as (m & Hm & Hto & Hfrom).
  { unfold interval_options in Hval. simpl in Hval.
    repeat (apply elem_of_cons in Hval as [-> | Hval];
            [eexists; split_and!; [|reflexivity|by vm_compute]; lia |]).
    by apply elem_of_nil in Hval. }
  exists m. split; [done|]. cbn zeta. unfold onMessage, saveGlobalSettingsMinutes. simpl.
  rewrite (whole_minutes_num m Hm). split_and!; [done | by apply schedule_whole_minutes |].
  exists (num m). by split.
Qed.

(** X15.  Whatever the interval slot holds, the selector shows one of its
    options; an option other than "6h" is shown only for its own number of
    minutes, and "6h" is shown as well for every number of minutes the
    selector does not offer. *)
Theorem selector_shows_an_option (mins : jsval) :
  let m := whole_minutes (Number_of StringToNumber mins) in
  let shown := minutesToIntervalSelect StringToNumber mins in
  shown ∈ interval_options /\
  (forall k, (shown, k) ∈ interval_minutes -> k <> 360 -> num_eq m (num k) = true) /\
  (Forall (fun e => num_eq m (num e.2) = false) interval_minutes -> shown = "6h"%string).
Proof.
  cbn zeta. unfold minutesToIntervalSelect.
  generalize (whole_minutes (Number_of StringToNumber mins)). intros m.
  unfold interval_options, interval_minutes, minutes_interval, numeric_property.
  cbn [fmap list_fmap fst snd].
  destruct (num_eq m (num 0)) eqn:E0; [|
  destruct (num_eq m (num 5)) eqn:E5; [|
  destruct (num_eq m (num 30)) eqn:E30; [|
  destruct (num_eq m (num 60)) eqn:E60; [|
  destruct (num_eq m (num 180)) eqn:E180; [|
  destruct (num_eq m (num 360)) eqn:E360; [|
  destruct (num_eq m (num 720)) eqn:E720; [|
  destruct (num_eq m (num 1440)) eqn:E1440]]]]]]];
    cbn [default from_option id];
    (split_and!;
     [ set_solver
     | intros k Hk Hne;
       repeat (apply elem_of_cons in Hk as [Hk' | Hk]; [simplify_eq; done || congruence |]);
       by apply elem_of_nil in Hk
     | intros Hall; try done;
       repeat (apply Forall_cons in Hall as [? Hall]); simpl in *; congruence ]).
Qed.

End IntervalSelector.

(** ** The older copy of the script against the current one *)

Section LegacyFacts.
Context (perAccount : gmap string AccountConfig)
        (sumAccountBytes : string -> option number)
        (forceNotify : bool) (onlyAccountId : option string) (now : string).

Local Abbreviation older :=
  (Legacy.check_account perAccount sumAccountBytes forceNotify onlyAccountId now).
Local Abbreviation current :=
  (check_account perAccount sumAccountBytes forceNotify onlyAccountId).

(** The loop variables of the badge do not depend on the world, and the
    two loops compute them alike. *)
Lemma legacy_step_top w1 w2 t a : (older (w1, t) a).2 = (current (w2, t) a).2.
Proof.
  unfold Legacy.check_account, check_account, not_monitored.
  destruct (out_of_scope _ _); [done|]. destruct (active_of _); [|done]. simpl.
  destruct (negb (truthy _) || num_le _ _); [done|].
  by destruct (sumAccountBytes _).
Qed.

Lemma legacy_step_keeps w t a n :
  is_Some (notifications w !! n) -> is_Some (notifications (older (w, t) a).1 !! n).
Proof.
  intros Hn. unfold Legacy.check_account.
  destruct (out_of_scope _ _); [done|]. destruct (negb (active_of _)); [done|].
  destruct (negb (truthy _) || num_le _ _); [done|].
  destruct (sumAccountBytes _) as [used|]; [|done]. simpl.
  destruct (_ || _); [|done]. simpl. rewrite lookup_insert_is_Some'. by right.
Qed.

Lemma legacy_step_state w1 w2 t a id :
  not_monitored (conf_of perAccount id) = false ->
  lastNotifiedPct w1 !! notify_state_key id = lastNotifiedPct w2 !! notify_state_key id ->
  lastNotifiedPct (older (w1, t) a).1 !! notify_state_key id
  = lastNotifiedPct (current (w2, t) a).1 !! notify_state_key id.
Proof.
  intros Hm Hw.
  destruct (decide (acc_id a = id)) as [<- | Hne].
  - unfold Legacy.check_account, check_account. rewrite Hm.
    unfold not_monitored in Hm. destruct (active_of _); [|done]. simpl in *. rewrite Hm.
    destruct (out_of_scope _ _); [done|].
    destruct (sumAccountBytes _) as [used|]; [|done]. simpl.
    by rewrite !lookup_insert_eq.
  - assert (notify_state_key id <> notify_state_key (acc_id a)) as Hk.
    { intros Hk. by apply notify_state_key_inj in Hk. }
    rewrite (step_other_key perAccount sumAccountBytes forceNotify onlyAccountId w2 t a) by done.
    rewrite <- Hw. unfold Legacy.check_account.
    destruct (out_of_scope _ _); [done|]. destruct (negb (active_of _)); [done|].
    destruct (negb (truthy _) || num_le _ _); [done|].
    destruct (sumAccountBytes _) as [used|]; [|done]. simpl.
    rewrite lookup_insert_ne by done. by destruct (_ || _).
Qed.

(** X16.  The older loop and the current one, run over the same accounts
    from the same world: they leave the same loop variables for the badge,
    and the same stored state for every account that is monitored; but the
    older loop never takes a notification down. *)
Theorem older_loop_never_clears (accounts : list account) (w : world) :
  let old := foldl (Legacy.check_account perAccount sumAccountBytes forceNotify
                      onlyAccountId now) (w, top_init) accounts in
  let new := foldl (check_account perAccount sumAccountBytes forceNotify onlyAccountId)
                   (w, top_init) accounts in
  old.2 = new.2 /\
  (forall id, not_monitored (conf_of perAccount id) = false ->
     lastNotifiedPct old.1 !! notify_state_key id
     = lastNotifiedPct new.1 !! notify_state_key id) /\
  (forall n, is_Some (notifications w !! n) -> is_Some (notifications old.1 !! n)).
Proof.
  cbn zeta. generalize top_init. intros t.
  cut (forall w1 w2,
         (foldl older (w1, t) accounts).2 = (foldl current (w2, t) accounts).2 /\
         (forall id, not_monitored (conf_of perAccount id) = false ->
            lastNotifiedPct w1 !! notify_state_key id
            = lastNotifiedPct w2 !! notify_state_key id ->
            lastNotifiedPct (foldl older (w1, t) accounts).1 !! notify_state_key id
            = lastNotifiedPct (foldl current (w2, t) accounts).1 !! notify_state_key id) /\
         (forall n, is_Some (notifications w1 !! n) ->
                    is_Some (notifications (foldl older (w1, t) accounts).1 !! n))).
  { intros H. destruct (H w w) as (H1 & H2 & H3). split_and!; [done | | done].
    intros id Hm. by apply H2. }
  revert t. induction accounts as [|a l IH]; intros t w1 w2; [done|]. cbn [foldl].
  pose proof (legacy_step_top w1 w2 t a) as Ht.
  pose proof (fun id => legacy_step_state w1 w2 t a id) as Hs.
  pose proof (legacy_step_keeps w1 t a) as Hk.
  destruct (older (w1, t) a) as [w1' t1], (current (w2, t) a) as [w2' t2].
  simpl in Ht, Hs, Hk. subst t2.
  destruct (IH t1 w1' w2') as (H1 & H2 & H3). split_and!; [done | |].
  - intros id Hm Hw. by apply H2, Hs.
  - intros n Hn. by apply H3, Hk.
Qed.

End LegacyFacts.

(** * Scenarios *)

Definition GiB : Z := 1073741824.

Definition monitored_conf (limit threshold : Z) : AccountConfig :=
  {| conf_active := Some true; conf_limitBytes := Some (num limit);
     conf_thresholdPct := Some (num threshold) |}.

Definition work : account := {| acc_id := "account1"; acc_name := "Work" |}.
Definition home : account := {| acc_id := "account2"; acc_name := "Home" |}.

(** Work: 10 GiB at 80 %; Home: 1000 bytes at 90 %. *)
Definition demo_settings : gmap string AccountConfig :=
  {[ "account1"%string := monitored_conf (10 * GiB) 80;
     "account2"%string := monitored_conf 1000 90 ]}.

(** Work uses 8.5 GiB, Home 950 bytes. *)
Definition demo_usage (id : string) : option number :=
  if decide (id = "account1"%string) then Some (num 9126805504)
  else if decide (id = "account2"%string) then Some (num 950)
  else None.

Definition quiet_world : world :=
  {| lastNotifiedPct := ∅; notifications := ∅; created := [];
     badge := {| badge_text := ""; badge_color := None; badge_title := "" |};
     console := [] |}.

Ltac by_evaluation :=
  vm_compute; first [reflexivity | exact I | (repeat split; reflexivity) | done].

(** Work at 85 % of 10 GiB against a threshold of 80, nothing stored before:
    the pass announces it. *)
Lemma rising_edge_law_witness :
  getNotificationId "account1"
  ∈ (emitted quiet_world
       (checkAllAccounts "MFA" demo_settings demo_usage false None [work] quiet_world)).*1.
Proof.
  apply (rising_edge_law "MFA" demo_settings demo_usage false None [work] quiet_world
           work (num 9126805504)).
  - apply NoDup_singleton.
  - apply list_elem_of_here.
  - reflexivity.
  - by_evaluation.
  - by_evaluation.
  - reflexivity.
  - left. split; by_evaluation.
Defined.

Example scenario_85 :
  let w := checkAllAccounts "MFA" demo_settings demo_usage false None [work] quiet_world in
  badge_text (badge w) = "85%"%string /\ badge_title (badge w) = "Work"%string /\
  (created w).*1 = [getNotificationId "account1"] /\
  num_eq (default NaN (lastNotifiedPct w !! notify_state_key "account1")) (num 85) = true.
Proof. by vm_compute. Qed.

(** Work falls back to 7 GiB. *)
Definition later_usage (id : string) : option number :=
  if decide (id = "account1"%string) then Some (num 7516192768)
  else if decide (id = "account2"%string) then Some (num 950)
  else None.

(** The world after Work was announced at 85 %. *)
Definition alerted_world : world :=
  checkAllAccounts "MFA" demo_settings demo_usage false None [work; home] quiet_world.


(** The same pass again creates nothing. *)
Lemma second_pass_is_silent_witness :
  emitted alerted_world
    (checkAllAccounts "MFA" demo_settings demo_usage false None [work; home] alerted_world)
  = [].
Proof.
  apply (second_pass_is_silent "MFA" demo_settings demo_usage false None [work; home]
           quiet_world).
  - reflexivity.
  - intros a [-> | [-> | []%elem_of_nil]%elem_of_cons]%elem_of_cons.
    + exists 800. by_evaluation.
    + exists 900. by_evaluation.
Defined.

(** Work back at 70 %: the notification of the earlier pass is gone. *)
Lemma below_threshold_clears_witness :
  notifications
    (checkAllAccounts "MFA" demo_settings later_usage false None [work; home] alerted_world)
    !! getNotificationId "account1" = None.
Proof.
  apply (below_threshold_clears "MFA" demo_settings later_usage false None [] [home]
           alerted_world work (num 7516192768)).
  - reflexivity.
  - by_evaluation.
  - by_evaluation.
  - reflexivity.
  - by_evaluation.
Defined.

Example scenario_70 :
  let w := checkAllAccounts "MFA" demo_settings later_usage false None [work] alerted_world in
  notifications alerted_world !! getNotificationId "account1" <> None /\
  notifications w !! getNotificationId "account1" = None /\
  badge_text (badge w) = ""%string /\
  num_eq (default NaN (lastNotifiedPct w !! notify_state_key "account1")) (num 70) = true.
Proof. by vm_compute. Qed.

(** Home is switched off. *)
Definition home_off_settings : gmap string AccountConfig :=
  <["account2"%string := {| conf_active := Some false; conf_limitBytes := Some (num 1000);
                            conf_thresholdPct := Some (num 90) |}]> demo_settings.

(** Home switched off: its notification is gone and its state is 0, even in
    a forced pass. *)
Lemma unmonitored_account_is_reset_witness :
  notifications
    (checkAllAccounts "MFA" home_off_settings demo_usage true None [work; home] alerted_world)
    !! getNotificationId "account2" = None /\
  lastNotifiedPct
    (checkAllAccounts "MFA" home_off_settings demo_usage true None [work; home] alerted_world)
    !! notify_state_key "account2" = Some (num 0).
Proof.
  destruct (unmonitored_account_is_reset "MFA" home_off_settings demo_usage true None
              [work; home] alerted_world home) as (H1 & H2 & _).
  - apply list_elem_of_further, list_elem_of_here.
  - reflexivity.
  - left. by_evaluation.
  - by split.
Defined.

(** The folders of Work cannot be listed. *)
Definition failing_usage (id : string) : option number :=
  if decide (id = "account2"%string) then Some (num 950) else None.

(** Work cannot be measured: its state stays, and the pass ends as the pass
    over Home alone. *)
Lemma failed_enumeration_skips_account_witness :
  lastNotifiedPct
    (checkAllAccounts "MFA" demo_settings failing_usage true None [work; home] alerted_world)
    !! notify_state_key "account1"
  = lastNotifiedPct alerted_world !! notify_state_key "account1" /\
  same_but_console
    (checkAllAccounts "MFA" demo_settings failing_usage true None [work; home] alerted_world)
    (checkAllAccounts "MFA" demo_settings failing_usage true None [home] alerted_world).
Proof.
  destruct (failed_enumeration_skips_account "MFA" demo_settings failing_usage true None
              [] [home] alerted_world work) as (H1 & _ & _ & H4).
  - reflexivity.
  - by_evaluation.
  - by_evaluation.
  - reflexivity.
  - by split.
Defined.

(** Two accounts of 1000 bytes: Work at 82 % against 80, Home at 95 %
    against 90. *)
Definition badge_settings : gmap string AccountConfig :=
  {[ "account1"%string := monitored_conf 1000 80;
     "account2"%string := monitored_conf 1000 90 ]}.

Definition badge_usage (id : string) : option number :=
  if decide (id = "account1"%string) then Some (num 820)
  else if decide (id = "account2"%string) then Some (num 950)
  else None.

(** The badge shows 95 with the name of Home, not the 82 of Work. *)
Lemma badge_shows_worst_account_witness :
  let b := badge (checkAllAccounts "MFA" badge_settings badge_usage false None
                    [work; home] quiet_world) in
  badge_text b = "95%"%string /\ badge_title b = "Home"%string.
Proof.
  destruct (badge_shows_worst_account "MFA" badge_settings badge_usage false None
              [work; home] quiet_world) as [Hsome _].
  - intros a used [-> | [-> | []%elem_of_nil]%elem_of_cons]%elem_of_cons [= <-];
      by_evaluation.
  - destruct Hsome as (worst & used & Hin & Hover & Hmax & Htext & _ & _ & Hname).
    + exists home, (num 950). split; [apply list_elem_of_further, list_elem_of_here|].
      split_and!; by_evaluation.
    + pose proof (Hmax home (num 950) (list_elem_of_further _ _ _ (list_elem_of_here _ _)))
        as Hhome.
      destruct Hover as (_ & _ & Hused & _).
      apply elem_of_cons in Hin as [-> | [-> | []%elem_of_nil]%elem_of_cons].
      * injection Hused as <-. exfalso. assert (false = true); [|done].
        apply Hhome. split_and!; by_evaluation.
      * injection Hused as <-. cbn zeta. rewrite Htext, Hname by done. by_evaluation.
Defined.

(** Other settings and another usage for Home, the same for Work. *)
Definition other_settings : gmap string AccountConfig :=
  <["account2"%string := monitored_conf 500 50]> demo_settings.

Definition other_usage (id : string) : option number :=
  if decide (id = "account1"%string) then Some (num 7516192768)
  else if decide (id = "account2"%string) then Some (num 499)
  else None.

(** A check of Work alone, at 70 %: the badge is the same in both runs, and
    it is the cleared one although Home is over its threshold. *)
Lemma scoped_pass_badge_witness :
  let b := badge (checkAllAccounts "MFA" demo_settings later_usage false
                    (Some "account1"%string) [work; home] alerted_world) in
  let b' := badge (checkAllAccounts "MFA" other_settings other_usage true
                     (Some "account1"%string) [work; home] quiet_world) in
  (badge_text b' = badge_text b /\ badge_title b' = badge_title b) /\
  badge_text b = ""%string /\ badge_title b = "MFA"%string.
Proof.
  destruct (scoped_pass_badge "MFA" demo_settings other_settings later_usage other_usage
              false true "account1" [work; home] alerted_world quiet_world)
    as [Hsame Hclear].
  - done.
  - reflexivity.
  - reflexivity.
  - split; [exact Hsame|]. apply Hclear. right; right. exists (num 7516192768).
    split; by_evaluation.
Defined.

(** A folder listed in two pages; two of its messages carry no usable size. *)
Definition second_page : page :=
  {| page_id := None;
     page_messages := [ {| msg_size := JSstring "12" |}; {| msg_size := JSnumber (num 50) |} ] |}.

Definition first_page : page :=
  {| page_id := Some "next"%string;
     page_messages := [ {| msg_size := JSnumber (num 100) |}; {| msg_size := JSundefined |} ] |}.

Definition demo_continueList (id : string) : option page :=
  if decide (id = "next"%string) then Some second_page else None.

(** The two numeric sizes add up to the total. *)
Lemma folder_sum_counts_numeric_sizes_witness :
  sumFolderMessagesSize demo_continueList 1 (Some first_page)
  = Returned (sum_numbers [num 100; num 50]).
Proof.
  apply (folder_sum_counts_numeric_sizes demo_continueList first_page
           [first_page; second_page] 1).
  - eapply listing_more; [reflexivity | done | reflexivity |].
    apply listing_last. by left.
  - simpl. lia.
Defined.

(** An account whose root folder is listed in the two pages above and has
    one subfolder with a single message of 50 bytes. *)
Definition demo_tree : folder :=
  Folder (Some first_page)
         [Folder (Some {| page_id := None;
                          page_messages := [ {| msg_size := JSnumber (num 50) |} ] |})
                 [] (Some [])]
         None.

Example account_total :
  sumAccountBytes_of demo_continueList 1 (Some (Some demo_tree))
  = Returned (Fin (0 + 100 + 50 + 50)).
Proof. reflexivity. Qed.

(** The same account when the subfolder cannot be listed. *)
Example account_total_fails :
  sumAccountBytes_of demo_continueList 1
    (Some (Some (Folder (Some first_page) [Folder None [] (Some [])] None)))
  = Thrown.
Proof. reflexivity. Qed.

(** The stored state is rounded, the threshold is not: with a threshold of
    80.04 % (which the settings page does not offer) and a usage of
    80.04 %, the stored 80.0 is below the threshold again and every pass
    announces the account. *)
Definition odd_settings : gmap string AccountConfig :=
  {[ "account1"%string :=
       {| conf_active := Some true; conf_limitBytes := Some (num 10000);
          conf_thresholdPct := Some (round_double (2001 # 25)) |} ]}.

Definition odd_usage (id : string) : option number :=
  if decide (id = "account1"%string) then Some (num 8004) else None.

(** C3, counterexample: two passes in a row, neither forced, with the same
    settings and the same usage, and each of them announces the account. *)
Lemma second_pass_announces_again :
  let w1 := checkAllAccounts "MFA" odd_settings odd_usage false None [work] quiet_world in
  let w2 := checkAllAccounts "MFA" odd_settings odd_usage false None [work] w1 in
  (emitted quiet_world w1).*1 = [getNotificationId "account1"] /\
  (emitted w1 w2).*1 = [getNotificationId "account1"] /\
  num_lt (default NaN (lastNotifiedPct w1 !! notify_state_key "account1"))
         (round_double (2001 # 25)) = true.
Proof. by vm_compute. Qed.

Example rounding_reopens_the_edge :
  let w1 := checkAllAccounts "MFA" odd_settings odd_usage false None [work] quiet_world in
  let w2 := checkAllAccounts "MFA" odd_settings odd_usage false None [work] w1 in
  (emitted w1 w2).*1 = [getNotificationId "account1"].
Proof. by vm_compute. Qed.

(** ** The arithmetic of doubles *)

(** 15300820992 bytes of 25 GiB are 56.99999999999999 % in doubles, not
    57: the badge shows 56. *)
Definition large_settings : gmap string AccountConfig :=
  {[ "account1"%string := monitored_conf (25 * GiB) 50 ]}.

Definition large_usage (id : string) : option number :=
  if decide (id = "account1"%string) then Some (num 15300820992) else None.

Example badge_of_56 :
  let w := checkAllAccounts "MFA" large_settings large_usage false None [work] quiet_world in
  badge_text (badge w) = "56%"%string /\ badge_title (badge w) = "Work"%string /\
  num_lt (pct_of (num 15300820992) (num (25 * GiB))) (num 57) = true.
Proof. by vm_compute. Qed.

(** 5502926848 bytes of 10 GiB are 51.24999999999999 %: the state stored
    is the double nearest to 51.2. *)
Example stored_51_2 :
  let pctUsed := pct_of (num 5502926848) (num (10 * GiB)) in
  Math_round (num_mul pctUsed (num 10)) = num 512 /\
  store_pct pctUsed = round_double (512 # 10) /\
  num_lt pctUsed (Fin (205 # 4)) = true.
Proof. by vm_compute. Qed.

(** 57 of 100 against a threshold of 57: 56.99999999999999 % is below the
    threshold, and even a forced pass announces nothing. *)
Definition tight_settings : gmap string AccountConfig :=
  {[ "account1"%string := monitored_conf 100 57 ]}.

Definition tight_usage (id : string) : option number :=
  if decide (id = "account1"%string) then Some (num 57) else None.

Example below_57 :
  let w := checkAllAccounts "MFA" tight_settings tight_usage true None [work] quiet_world in
  created w = [] /\ badge_text (badge w) = ""%string.
Proof. by vm_compute. Qed.

(** The double of the kernel as a [number]. *)
Definition number_of_float (f : PrimFloat.float) : number :=
  match FloatOps.Prim2SF f with
  | SpecFloat.S754_zero _ => Fin 0
  | SpecFloat.S754_infinity s => if s then NInf else PInf
  | SpecFloat.S754_nan => NaN
  | SpecFloat.S754_finite s m e =>
      Fin (inject_Z (if s then Zneg m else Zpos m) * pow2 e)
  end.

(** The double of a whole number of bytes (below 2^53). *)
Definition float_of_bytes (z : Z) : PrimFloat.float :=
  match z with
  | Zpos m => FloatOps.SF2Prim (SpecFloat.S754_finite false m 0)
  | Zneg m => FloatOps.SF2Prim (SpecFloat.S754_finite true m 0)
  | Z0 => PrimFloat.zero
  end.

(** [(used / limit) * 100] and [k / 10] on the doubles of the kernel. *)
Definition float_pct (used limit : Z) : PrimFloat.float :=
  PrimFloat.mul (PrimFloat.div (float_of_bytes used) (float_of_bytes limit))
                (float_of_bytes 100).

Definition float_tenth (k : Z) : PrimFloat.float :=
  PrimFloat.div (float_of_bytes k) (float_of_bytes 10).

(** The percentage, its product with 10 and the tenth that is stored
    are the same in the model and on the doubles of the kernel. *)
Definition agrees_with_doubles (used limit : Z) : bool :=
  let pctUsed := pct_of (num used) (num limit) in
  num_eq (number_of_float (float_pct used limit)) pctUsed
  && num_eq (number_of_float
               (PrimFloat.mul (float_pct used limit) (float_of_bytes 10)))
            (num_mul pctUsed (num 10))
  && match Math_round (num_mul pctUsed (num 10)) with
     | Fin k => num_eq (number_of_float (float_tenth (Qfloor k))) (store_pct pctUsed)
     | _ => false
     end.

(** The inputs above, and two thousand usages spread over a limit of
    10 GiB and over a limit of 104729 bytes. *)
Example model_agrees_with_doubles :
  forallb (fun ul => agrees_with_doubles ul.1 ul.2)
    ([ (15300820992, 25 * GiB); (5502926848, 10 * GiB); (57, 100); (8004, 10000);
       (9126805504, 10 * GiB); (7516192768, 10 * GiB); (950, 1000); (820, 1000) ]
     ++ ((fun k => (k * 5368709 + 13, 10 * GiB)) <$> seqZ 0 2000)
     ++ ((fun k => (k * 53 + 1, 104729)) <$> seqZ 0 2000)) = true.
Proof. by vm_compute. Qed.

Example floor_of_85_9 : Math_floor (Fin (859 # 10)) = num 85.
Proof. reflexivity. Qed.

Example round_of_859_5 : Math_round (Fin (8595 # 10)) = num 860.
Proof. reflexivity. Qed.

Example round_of_minus_2_5 : Math_round (Fin (-5 # 2)) = num (-2).
Proof. reflexivity. Qed.

Example text_of_85 : Number_toString (num 85) = "85"%string.
Proof. by vm_compute. Qed.

(** Division and multiplication on operands [m * 2^e] of either sign, in
    the model and on the doubles of the kernel: results that are
    subnormal, that round to zero, that overflow, and ties. *)
Definition float_of (m e : Z) : PrimFloat.float :=
  match m with
  | Zpos p => FloatOps.SF2Prim (SpecFloat.S754_finite false p e)
  | Zneg p => FloatOps.SF2Prim (SpecFloat.S754_finite true p e)
  | Z0 => PrimFloat.zero
  end.

Definition same_number (a b : number) : bool :=
  match a, b with
  | NaN, NaN | PInf, PInf | NInf, NInf => true
  | Fin x, Fin y => Qeq_bool x y
  | _, _ => false
  end.

Definition operations_agree (t : Z * Z * Z * Z) : bool :=
  let '(m1, e1, m2, e2) := t in
  let a := Fin (inject_Z m1 * pow2 e1) in
  let b := Fin (inject_Z m2 * pow2 e2) in
  same_number (number_of_float (PrimFloat.div (float_of m1 e1) (float_of m2 e2)))
              (num_div a b)
  && same_number (number_of_float (PrimFloat.mul (float_of m1 e1) (float_of m2 e2)))
                 (num_mul a b).

Example rounding_agrees_at_the_edges :
  forallb operations_agree
    [ (-5, 0, 3, 0); (1, -1074, 3, 0); (1, -1074, 2, 0); (3, -1074, 2, 0);
      (9007199254740991, 971, 1, -1); (9007199254740991, 971, 3, 0);
      (9007199254740991, 971, 9007199254740990, -53); (-9007199254740991, 971, 1, -1);
      (7, -600, 11, 500); (7, -600, -11, -500); (4503599627370497, -1074, 2, 0);
      (4503599627370496, -1074, 3, 0); (1, 0, 10, 0); (3, 0, 10, 0); (2001, 0, 25, 0);
      (1, 1000, 1, -30); (6004799503160661, -200, -6004799503160663, 300) ] = true.
Proof. by vm_compute. Qed.

(** ** The rest of the add-on at work *)

(** The add-on after the pass that announced Work at 85 %, with no
    interval stored and no alarm armed. *)
Definition demo_addon : addon :=
  {| stored_perAccount := demo_settings; stored_interval := None; armed := ∅;
     seen := alerted_world |}.

(** No string of the scenarios is read as a number. *)
Definition no_number (s : string) : number := NaN.

Lemma work_home_distinct : NoDup (acc_id <$> [work; home]).
Proof.
  apply NoDup_cons. split; [|apply NoDup_singleton].
  intros H. by apply list_elem_of_singleton in H.
Qed.

(** A stored interval of 45.5 minutes arms the alarm with 45. *)
Lemma armed_period_is_whole_minutes_witness : exists k : Z, 1 <= k /\ num 45 = num k.
Proof.
  apply (armed_period_is_whole_minutes (Some (JSnumber (Fin (91 # 2)))) ∅ (num 45)).
  by_evaluation.
Defined.

(** A forced check of Work alone leaves the state stored for Home. *)
Lemma scoped_pass_leaves_other_accounts_witness :
  lastNotifiedPct
    (checkAllAccounts "MFA" demo_settings later_usage true (Some "account1"%string)
       [work; home] alerted_world) !! notify_state_key "account2"
  = lastNotifiedPct alerted_world !! notify_state_key "account2".
Proof.
  destruct (scoped_pass_leaves_other_accounts "MFA" demo_settings later_usage true
              "account1" [work; home] alerted_world) as (Hstate & _ & _).
  - done.
  - apply Hstate. by_evaluation.
Defined.

(** Home stays at 95 % in an unforced pass: it is not announced again and
    its notification of the earlier pass stays on display. *)
Lemma notification_on_display_witness :
  notifications
    (checkAllAccounts "MFA" demo_settings later_usage false None [work; home] alerted_world)
    !! getNotificationId "account2"
  = notifications alerted_world !! getNotificationId "account2".
Proof.
  etrans.
  - apply (notification_on_display "MFA" demo_settings later_usage false None
             [work; home] alerted_world home (num 950)).
    + exact work_home_distinct.
    + apply list_elem_of_further, list_elem_of_here.
    + reflexivity.
    + by_evaluation.
    + reflexivity.
  - by_evaluation.
Defined.

(** Work is switched off in its row of the options page. *)
Definition work_off : AccountConfig :=
  {| conf_active := Some false; conf_limitBytes := Some (num (10 * GiB));
     conf_thresholdPct := Some (num 80) |}.

(** Update on the row of Work, switched off: its notification is taken
    down, its state is 0 and the badge is cleared, although Home is still
    over its threshold. *)
Lemma update_button_outcome_witness :
  let s' := update_account "MFA" [work; home] demo_usage no_number "account1" work_off
              demo_addon in
  notifications (seen s') !! getNotificationId "account1" = None /\
  lastNotifiedPct (seen s') !! notify_state_key "account1" = Some (num 0) /\
  badge_text (badge (seen s')) = ""%string.
Proof.
  destruct (update_button_outcome "MFA" [work; home] demo_usage no_number work work_off
              demo_addon) as (_ & Hoff & _ & _).
  - exact work_home_distinct.
  - apply list_elem_of_here.
  - done.
  - apply Hoff. by_evaluation.
Defined.

(** A tick of the alarm while Work is still at 85 %: it is announced again. *)
Lemma alarm_tick_renews_alerts_witness :
  let s' := onAlarm "MFA" [work; home] demo_usage "quota-check" demo_addon in
  (getNotificationId "account1",
   {| n_account := "Work"; n_used := num 9126805504; n_limit := num (10 * GiB);
      n_pctUsed := pct_of (num 9126805504) (num (10 * GiB)); n_threshold := num 80 |})
  ∈ emitted (seen demo_addon) (seen s').
Proof.
  destruct (alarm_tick_renews_alerts "MFA" [work; home] demo_usage work (num 9126805504)
              demo_addon) as (_ & _ & Hover & _).
  - exact work_home_distinct.
  - apply list_elem_of_here.
  - by_evaluation.
  - reflexivity.
  - destruct Hover as [_ Hnew]; [by_evaluation | exact Hnew].
Defined.

(** The account of the two pages and one subfolder: 200 bytes. *)
Lemma usage_is_never_negative_witness : num_le (num 0) (Fin (0 + 100 + 50 + 50)) = true.
Proof.
  apply (usage_is_never_negative demo_continueList 1 (Some (Some demo_tree))
           (Fin (0 + 100 + 50 + 50))).
  - intros id p. unfold demo_continueList. destruct (decide _); [|done].
    intros [= <-]. repeat constructor; by intros n [= <-].
  - intros rootFolder f p [= <-] Hf.
    repeat (apply elem_of_cons in Hf as [-> | Hf]);
      [| | by apply elem_of_nil in Hf]; intros [= <-];
      repeat constructor; by intros n [= <-].
  - reflexivity.
Defined.

(** Work at 70 % and Home at 50 %. *)
Definition calm_usage (id : string) : option number :=
  if decide (id = "account1"%string) then Some (num 7516192768)
  else if decide (id = "account2"%string) then Some (num 500)
  else None.

(** No row of the options page is set in red, and the badge is empty. *)
Lemma badge_agrees_with_options_page_witness :
  badge_text (badge (checkAllAccounts "MFA" demo_settings calm_usage false None
                       [work; home] alerted_world)) = ""%string.
Proof.
  destruct (badge_agrees_with_options_page "MFA" demo_settings calm_usage false
              [work; home] alerted_world) as [_ Hcalm].
  - intros a used [-> | [-> | []%elem_of_nil]%elem_of_cons]%elem_of_cons [= <-];
      by_evaluation.
  - intros a [-> | [-> | []%elem_of_nil]%elem_of_cons]%elem_of_cons; by_evaluation.
  - apply Hcalm.
    intros a [-> | [-> | []%elem_of_nil]%elem_of_cons]%elem_of_cons; by_evaluation.
Defined.

(** Choosing "1h" stores 60 minutes. *)
Lemma chosen_interval_round_trip_witness :
  exists m, intervalSelectToMinutes "1h" = Some (num m).
Proof.
  destruct (chosen_interval_round_trip "MFA" [work; home] demo_usage no_number "1h"
              demo_addon) as (m & Hm & _).
  - apply list_elem_of_further, list_elem_of_further, list_elem_of_further,
      list_elem_of_here.
  - by exists m.
Defined.

(** The selector at work: 45 minutes are stored and armed, and the page
    shows "6h". *)
Example selector_shows_6h_for_45 :
  scheduleChecksFromSettings (Some (JSnumber (num 45))) ∅ = {[ALARM_NAME := num 45]} /\
  minutesToIntervalSelect no_number (JSnumber (num 45)) = "6h"%string /\
  intervalSelectToMinutes "6h" = Some (num 360) /\
  intervalSelectToMinutes "toString" = None.
Proof. by vm_compute. Qed.

(** A row of the options page for Work at 85 % of 10 GiB: 85 %, in red,
    with 1.5 GiB free. *)
Example painted_work :
  painted_row demo_settings demo_usage work
  = Some {| col_pct := "85%"; col_used := num 9126805504;
            col_free := Math_max (num 0) (num_sub (num (10 * GiB)) (num 9126805504));
            col_alert := true |}.
Proof. by vm_compute. Qed.
